(** * glance: stock feed classification, YAML scalar fields, Reddit widget

    A shallow embedding of three Go sources of the dashboard:
    - the stocks feed ([FetchStocksDataFromYahoo], package [feed]),
    - the custom YAML scalars [HSLColorField] and [DurationField]
      (internal/widget/fields.go),
    - [Reddit.Initialize] (internal/widget/reddit.go).

    Go values are modelled as follows: slices are lists ([nil] and the empty
    slice are both [[]]), [int]/[int64] are [Z] with the wrap-around written
    out where the code does arithmetic, [float64] is the primitive binary64
    float, a nilable [error] is [option error], and a run-time panic is the
    [Panics] outcome. *)

From Stdlib Require Import ZArith String Ascii Floats Lia.
From stdpp Require Import base option list strings gmap.

Local Open Scope Z_scope.

(** ** Go prelude: panics and slice indexing *)

Module Go.

Inductive outcome (A : Type) : Type :=
| Returns (a : A)
| Panics (msg : string).
Arguments Returns {A} a.
Arguments Panics {A} msg.

Definition bind {A B} (m : outcome A) (k : A -> outcome B) : outcome B :=
  match m with
  | Returns a => k a
  | Panics msg => Panics msg
  end.

(** [s[i]]: a run-time panic when [i] is out of range. *)
Definition index {A} (s : list A) (i : nat) : outcome A :=
  match s !! i with
  | Some a => Returns a
  | None => Panics "index out of range"
  end.

End Go.

Import Go.

#[global] Instance outcome_bind : MBind outcome := fun A B k m => Go.bind m k.

(** ** Package feed *)

Module Feed.

(** The two sentinel errors of the package.  Their declarations are not part
    of the sources at hand; only their identity matters here. *)
Inductive sentinel : Type := ErrNoContent | ErrPartialContent.

(** Error values.  [Errorf_w format w operand] is the value of
    [fmt.Errorf(format, w, operand)] for a format that starts with [%w]: it
    wraps [w] and remembers the one further operand.  [External] stands for
    any error made outside the modelled code (network, decoding, pool). *)
Inductive error : Type :=
| Sentinel (s : sentinel)
| External (msg : string)
| Errorf_w (format : string) (w : error) (operand : fmt_operand)
with fmt_operand : Type :=
| Verb_v (e : error)
| Verb_d (n : Z).

Definition sentinel_eqb (a b : sentinel) : bool :=
  match a, b with
  | ErrNoContent, ErrNoContent | ErrPartialContent, ErrPartialContent => true
  | _, _ => false
  end.

(** [errors.Is(e, s)] for a sentinel target: follows the [%w] chain. *)
Fixpoint errors_Is (e : error) (s : sentinel) : bool :=
  match e with
  | Sentinel s' => sentinel_eqb s' s
  | External _ => false
  | Errorf_w _ w _ => errors_Is w s
  end.

(** *** Data model (lines 9-29 of the feed source) *)

Record MetaJson : Type := {
  Meta_Symbol : string;
  RegularMarketPrice : float;
  ChartPreviousClose : float }.

Record QuoteJson : Type := { Close : list float }.

Record IndicatorsJson : Type := { Quote : list QuoteJson }.

Record ResultJson : Type := { Meta : MetaJson; Indicators : IndicatorsJson }.

Record ChartJson : Type := { Result : list ResultJson }.

Record stockResponseJson : Type := { Chart : ChartJson }.

Record StockRequest : Type := { Req_Symbol : string; Req_Name : string }.

(** [Stock] is declared in another file of the package; its fields are the
    ones the composite literal of lines 81-90 fills. *)
Record Stock : Type := {
  Name : string;
  Symbol : string;
  Price : float;
  PercentChange : float;
  SvgChartPoints : string }.

Definition Stocks : Type := list Stock.

Definition stockChartDays : nat := 21.

(** *** The worker pool

    [workerPoolDo], [newJob] and the task type live in a file that is not
    among the sources.  The job record follows the call of line 42; a unit's
    task may return a value with an error, or panic. *)

Record workerPoolJob (I O : Type) : Type := newJob {
  task : I -> outcome (O * option error);
  data : list I }.
Arguments newJob {I O} task data.
Arguments task {I O} w.
Arguments data {I O} w.

(** Modelled from the spec: the circumstances of one execution, which the
    missing executor gets from its scheduler.  They are the order in which
    the units complete ("execution order across units is unspecified"),
    whether "the execution substrate itself could not be started", and the
    one signal chosen for N = 0 ([None]: "no error"). *)
Record PoolEnv : Type := {
  completion : list nat;
  substrate_failure : option error;
  nothing_to_do : option error }.

(** Modelled from the spec: the protected call around one unit is missing
    from the sources.  "A panic or crash within one unit's execution must be
    caught and converted into a positional error"; the failed unit's result
    slot keeps the zero value. *)
Definition protected_call {I O} (zero : O) (job : workerPoolJob I O)
    (input : I) : O * option error :=
  match task job input with
  | Returns p => p
  | Panics msg => (zero, Some (External msg))
  end.

(** Modelled from the spec: the completion of unit [i] is missing from the
    sources.  "Each unit's outcome (value or error) is written to its
    positional slot in the result/error sequences". *)
Definition complete_unit {I O} (zero : O) (job : workerPoolJob I O)
    (st : list O * list (option error)) (i : nat)
    : list O * list (option error) :=
  match data job !! i with
  | None => st
  | Some input =>
      let p := protected_call zero job input in
      (<[i := p.1]> (st.1), <[i := p.2]> (st.2))
  end.

(** Modelled from the spec: [workerPoolDo] is missing from the sources.
    [execute(job) -> (results, errors, batchErr)]: two sequences of length N,
    index-aligned to the input units; [batchErr] is non-nil only for
    whole-batch conditions (N = 0 with the chosen "nothing to do" signal, or
    an execution substrate that could not be started), never because units
    failed.  Units complete in the order [completion env]. *)
Definition workerPoolDo_spec {I O} (zero : O) (env : PoolEnv)
    (job : workerPoolJob I O) : list O * list (option error) * option error :=
  let results := replicate (length (data job)) zero in
  let errs := replicate (length (data job)) (None : option error) in
  if Nat.eqb (length (data job)) 0 then (results, errs, nothing_to_do env)
  else
    match substrate_failure env with
    | Some e => (results, errs, Some e)
    | None =>
        let st := foldl (complete_unit zero job) (results, errs) (completion env) in
        (st.1, st.2, None)
    end.

(** *** FetchStocksDataFromYahoo (lines 34-102) *)

Section Fetch.

(** [*http.Request] and [http.NewRequest(method, url, nil)]; the source
    drops the error of [NewRequest]. *)
Variable Request : Type.
Variable http_NewRequest : string -> string -> Request.

(** [decodeJsonFromRequestTask[stockResponseJson](defaultClient)]: the
    network round trip and the JSON decoding of one request. *)
Variable decodeJsonFromRequestTask :
  Request -> outcome (stockResponseJson * option error).

Variable workerPoolDo :
  workerPoolJob Request stockResponseJson ->
  list stockResponseJson * list (option error) * option error.

(** Domain transforms defined in other files of the package. *)
Variable SvgPolylineCoordsFromYValues : float -> float -> list float -> string.
Variable maybeCopySliceWithoutZeroValues : list float -> list float.
Variable percentChange : float -> float -> float.

(** Lines 35-40. *)
Definition buildRequests (stockRequests : list StockRequest) : list Request :=
  (fun r => http_NewRequest "GET"
     ("https://query1.finance.yahoo.com/v8/finance/chart/" +:+ Req_Symbol r
        +:+ "?range=1mo&interval=1d")) <$> stockRequests.

(** Lines 67-90, once [Result[0]] and [Quote[0]] have been read. *)
Definition makeStock (request : StockRequest) (result0 : ResultJson)
    (quote0 : QuoteJson) : Stock :=
  let prices := Close quote0 in
  let prices :=
    if Nat.ltb stockChartDays (length prices)
    then drop (length prices - stockChartDays) prices
    else prices in
  let previous := RegularMarketPrice (Meta result0) in
  let previous :=
    if Nat.leb 2 (length prices) then
      match prices !! (length prices - 2)%nat with
      | Some p => if negb (PrimFloat.eqb p 0%float) then p else previous
      | None => previous
      end
    else previous in
  let points :=
    SvgPolylineCoordsFromYValues 100%float 50%float
      (maybeCopySliceWithoutZeroValues prices) in
  {| Name := Req_Name request;
     Symbol := Meta_Symbol (Meta result0);
     Price := RegularMarketPrice (Meta result0);
     PercentChange := percentChange (RegularMarketPrice (Meta result0)) previous;
     SvgChartPoints := points |}.

(** The loop of lines 52-91; [rest] is [responses[i:]].  The [slog.Error]
    calls only read [stockRequests[i]] and [errs[i]]; those reads are kept,
    the log lines are not. *)
Fixpoint fetchLoop (stockRequests : list StockRequest)
    (errs : list (option error)) (i : nat) (rest : list stockResponseJson)
    (stocks : Stocks) (failed : Z) : outcome (Stocks * Z) :=
  match rest with
  | [] => Returns (stocks, failed)
  | response :: rest' =>
      err_i ← index errs i;
      request ← index stockRequests i;
      match err_i with
      | Some _ => fetchLoop stockRequests errs (S i) rest' stocks (failed + 1)
      | None =>
          if Nat.eqb (length (Result (Chart response))) 0
          then fetchLoop stockRequests errs (S i) rest' stocks (failed + 1)
          else
            result0 ← index (Result (Chart response)) 0;
            quote0 ← index (Quote (Indicators result0)) 0;
            fetchLoop stockRequests errs (S i) rest'
              (stocks ++ [makeStock request result0 quote0]) failed
      end
  end.

Definition FetchStocksDataFromYahoo (stockRequests : list StockRequest)
    : outcome (Stocks * option error) :=
  let requests := buildRequests stockRequests in
  let job := newJob decodeJsonFromRequestTask requests in
  let '(responses, errs, err) := workerPoolDo job in
  match err with
  | Some err => Returns ([], Some (Errorf_w "%w: %v" (Sentinel ErrNoContent) (Verb_v err)))
  | None =>
      '(stocks, failed) ← fetchLoop stockRequests errs 0 responses [] 0;
      if Nat.eqb (length stocks) 0 then Returns ([], Some (Sentinel ErrNoContent))
      else if 0 <? failed then
        Returns (stocks,
                 Some (Errorf_w "%w: could not fetch data for %d stock(s)"
                         (Sentinel ErrPartialContent) (Verb_d failed)))
      else Returns (stocks, None)
  end.

(** *** Classification vocabulary

    A unit is dropped by the loop when its error is non-nil (line 53) or when
    its response carries no chart result (line 61). *)

Definition unit_failed (err : option error) (response : stockResponseJson) : bool :=
  match err with
  | Some _ => true
  | None => Nat.eqb (length (Result (Chart response))) 0
  end.

Definition failed_at (errs : list (option error))
    (responses : list stockResponseJson) (i : nat) : bool :=
  match errs !! i, responses !! i with
  | Some err, Some response => unit_failed err response
  | _, _ => true
  end.

(** Indices of the units the loop keeps, in input order, and of those it
    counts in [failed]. *)
Definition usable_indices (errs : list (option error))
    (responses : list stockResponseJson) : list nat :=
  filter (fun i => failed_at errs responses i = false) (seq 0 (length responses)).

Definition failed_indices (errs : list (option error))
    (responses : list stockResponseJson) : list nat :=
  filter (fun i => failed_at errs responses i = true) (seq 0 (length responses)).

Definition failure_count (errs : list (option error))
    (responses : list stockResponseJson) : nat :=
  length (failed_indices errs responses).

(** The number of failed units in the sense of the executor's contract: the
    non-nil entries of the error sequence. *)
Definition error_count (errs : list (option error)) : nat :=
  length (filter (fun e : option error => is_Some e) errs).

(** The stock built from unit [i]. *)
Definition stockAt (stockRequests : list StockRequest)
    (responses : list stockResponseJson) (i : nat) : option Stock :=
  request ← stockRequests !! i;
  response ← responses !! i;
  result0 ← Result (Chart response) !! 0%nat;
  quote0 ← Quote (Indicators result0) !! 0%nat;
  Some (makeStock request result0 quote0).

(** Unit [i] is kept by the loop but its first chart result has no quote
    series: line 67 then indexes an empty slice. *)
Definition quote_missing_at (errs : list (option error))
    (responses : list stockResponseJson) (i : nat) : bool :=
  match errs !! i, responses !! i with
  | Some None, Some response =>
      match Result (Chart response) with
      | result0 :: _ => Nat.eqb (length (Quote (Indicators result0))) 0
      | [] => false
      end
  | _, _ => false
  end.

Definition quotes_present (errs : list (option error))
    (responses : list stockResponseJson) : bool :=
  forallb (fun i => negb (quote_missing_at errs responses i))
    (seq 0 (length responses)).

(** The tail of the function, lines 93-101. *)
Definition classify (stocks : Stocks) (failed : Z) : Stocks * option error :=
  if Nat.eqb (length stocks) 0 then ([], Some (Sentinel ErrNoContent))
  else if 0 <? failed then
    (stocks,
     Some (Errorf_w "%w: could not fetch data for %d stock(s)"
             (Sentinel ErrPartialContent) (Verb_d failed)))
  else (stocks, None).

(** *** The loop, step by step *)

Lemma index_lookup {A} (s : list A) (i : nat) (a : A) :
  s !! i = Some a -> index s i = Returns a.
Proof. intros H. unfold index. now rewrite H. Qed.

Lemma drop_cons_lookup {A} (l : list A) (i : nat) (x : A) (rest : list A) :
  drop i l = x :: rest -> l !! i = Some x /\ drop (S i) l = rest.
Proof.
  intros H. assert (Hx : l !! i = Some x).
  { pose proof (lookup_drop l i 0) as E. rewrite H in E. simpl in E.
    now rewrite Nat.add_0_r in E. }
  split; [exact Hx|]. rewrite (drop_S _ _ _ Hx) in H. congruence.
Qed.

Lemma fetchLoop_spec (stockRequests : list StockRequest)
    (errs : list (option error)) (responses : list stockResponseJson) :
  length errs = length responses ->
  length stockRequests = length responses ->
  forall (rest : list stockResponseJson) (i : nat) (stocks : Stocks) (failed : Z),
    drop i responses = rest ->
    (forall j, (i <= j)%nat -> quote_missing_at errs responses j = false) ->
    exists kept : Stocks,
      Forall2 (fun j s => stockAt stockRequests responses j = Some s)
        (filter (fun j => failed_at errs responses j = false) (seq i (length rest)))
        kept /\
      fetchLoop stockRequests errs i rest stocks failed =
        Returns (stocks ++ kept,
                 failed + Z.of_nat (length
                   (filter (fun j => failed_at errs responses j = true)
                      (seq i (length rest))))).
Proof.
  intros Herrs Hreqs rest. induction rest as [|response rest IH];
    intros i stocks failed Hdrop Hq.
  - exists []. split; [constructor|]. simpl. now rewrite app_nil_r, Z.add_0_r.
  - apply drop_cons_lookup in Hdrop as [Hi Hdrop].
    assert (Hlt : (i < length responses)%nat) by (eapply lookup_lt_Some; eauto).
    destruct (lookup_lt_is_Some_2 errs i) as [err Herr]; [lia|].
    destruct (lookup_lt_is_Some_2 stockRequests i) as [request Hreq]; [lia|].
    assert (Hq' : forall j, (S i <= j)%nat -> quote_missing_at errs responses j = false)
      by (intros j Hj; apply Hq; lia).
    cbn [fetchLoop length seq].
    rewrite (index_lookup _ _ _ Herr), (index_lookup _ _ _ Hreq). cbn [mbind outcome_bind bind].
    assert (Hfail : failed_at errs responses i = unit_failed err response)
      by (unfold failed_at; now rewrite Herr, Hi).
    destruct err as [e|]; [|destruct (Result (Chart response)) as [|result0 results] eqn:Hres].
    + destruct (IH (S i) stocks (failed + 1) Hdrop Hq') as (kept & HF & Hloop).
      exists kept. rewrite filter_cons_False by (rewrite Hfail; discriminate).
      rewrite filter_cons_True by (now rewrite Hfail).
      split; [exact HF|]. rewrite Hloop. cbn [length]. do 2 f_equal. lia.
    + destruct (IH (S i) stocks (failed + 1) Hdrop Hq') as (kept & HF & Hloop).
      assert (Hfi : failed_at errs responses i = true)
        by (rewrite Hfail; unfold unit_failed; now rewrite Hres).
      exists kept. rewrite filter_cons_False by (rewrite Hfi; discriminate).
      rewrite filter_cons_True by exact Hfi.
      split; [exact HF|]. cbn [length Nat.eqb]. rewrite Hloop. cbn [length].
      do 2 f_equal. lia.
    + assert (Hfi : failed_at errs responses i = false)
        by (rewrite Hfail; unfold unit_failed; now rewrite Hres).
      pose proof (Hq i (Nat.le_refl i)) as Hqi. unfold quote_missing_at in Hqi.
      rewrite Herr, Hi, Hres in Hqi.
      destruct (Quote (Indicators result0)) as [|quote0 quotes] eqn:Hquote;
        [discriminate|].
      destruct (IH (S i) (stocks ++ [makeStock request result0 quote0]) failed
                  Hdrop Hq') as (kept & HF & Hloop).
      exists (makeStock request result0 quote0 :: kept).
      rewrite filter_cons_True by exact Hfi.
      rewrite filter_cons_False by (rewrite Hfi; discriminate).
      split.
      * constructor; [|exact HF]. unfold stockAt.
        rewrite Hreq, Hi. cbn [mbind option_bind]. rewrite Hres.
        cbn [lookup list_lookup mbind option_bind]. now rewrite Hquote.
      * cbn [length Nat.eqb index lookup list_lookup mbind outcome_bind bind].
        rewrite Hquote.
        cbn [index lookup list_lookup mbind outcome_bind bind]. rewrite Hloop.
        now rewrite <- app_assoc.
Qed.

Lemma usable_failed_partition (errs : list (option error))
    (responses : list stockResponseJson) :
  (length (usable_indices errs responses) + failure_count errs responses
   = length responses)%nat.
Proof.
  unfold usable_indices, failure_count, failed_indices.
  transitivity (length (seq 0 (length responses))); [|apply length_seq].
  induction (seq 0 (length responses)) as [|j l IH]; [reflexivity|].
  destruct (failed_at errs responses j) eqn:E.
  - rewrite filter_cons_False by (rewrite E; discriminate).
    rewrite filter_cons_True by exact E. cbn [length]. lia.
  - rewrite filter_cons_True by exact E.
    rewrite filter_cons_False by (rewrite E; discriminate). cbn [length]. lia.
Qed.

Lemma quotes_present_spec (errs : list (option error))
    (responses : list stockResponseJson) :
  quotes_present errs responses = true ->
  forall j, quote_missing_at errs responses j = false.
Proof.
  intros H j. destruct (decide (j < length responses)%nat) as [Hj|Hj].
  - unfold quotes_present in H. rewrite forallb_forall in H.
    specialize (H j). rewrite negb_true_iff in H. apply H.
    apply in_seq. lia.
  - unfold quote_missing_at. rewrite (lookup_ge_None_2 responses j) by lia.
    now destruct (errs !! j) as [[?|]|].
Qed.

(** The function when the pool reports no batch error: the kept units, in
    input order, and the classification of lines 93-101 on them. *)
Lemma FetchStocksDataFromYahoo_classify (stockRequests : list StockRequest)
    (responses : list stockResponseJson) (errs : list (option error)) :
  workerPoolDo (newJob decodeJsonFromRequestTask (buildRequests stockRequests))
    = (responses, errs, None) ->
  length responses = length stockRequests ->
  length errs = length stockRequests ->
  quotes_present errs responses = true ->
  exists stocks : Stocks,
    Forall2 (fun i s => stockAt stockRequests responses i = Some s)
      (usable_indices errs responses) stocks /\
    FetchStocksDataFromYahoo stockRequests =
      Returns (classify stocks (Z.of_nat (failure_count errs responses))).
Proof.
  intros Hpool Hresp Herrs Hq.
  destruct (fetchLoop_spec stockRequests errs responses ltac:(lia) ltac:(lia)
              responses 0%nat [] 0 eq_refl) as (stocks & HF & Hloop).
  { intros j _. now apply quotes_present_spec. }
  exists stocks. split; [exact HF|].
  unfold FetchStocksDataFromYahoo. rewrite Hpool, Hloop.
  cbn [mbind outcome_bind bind app]. unfold classify, failure_count, failed_indices.
  rewrite Z.add_0_l.
  destruct (Nat.eqb (length stocks) 0); [reflexivity|].
  now destruct (0 <? _).
Qed.

Lemma classify_fst (stocks : Stocks) (failed : Z) :
  (classify stocks failed).1 = stocks.
Proof.
  unfold classify. destruct stocks; [reflexivity|]. cbn [length Nat.eqb].
  now destruct (0 <? failed).
Qed.

Lemma usable_indices_sublist (errs : list (option error))
    (responses : list stockResponseJson) :
  usable_indices errs responses `sublist_of` seq 0 (length responses).
Proof. apply sublist_filter. Qed.

Lemma usable_indices_elem (errs : list (option error))
    (responses : list stockResponseJson) (i : nat) :
  i ∈ usable_indices errs responses <->
  errs !! i = Some None /\
  exists response, responses !! i = Some response /\ Result (Chart response) <> [].
Proof.
  unfold usable_indices. rewrite list_elem_of_filter, elem_of_seq.
  unfold failed_at, unit_failed. split.
  - intros [Hf Hi]. destruct (lookup_lt_is_Some_2 responses i) as [r Hr]; [lia|].
    rewrite Hr in Hf. destruct (errs !! i) as [[e|]|]; try discriminate.
    split; [reflexivity|]. exists r. split; [exact Hr|].
    intros E. now rewrite E in Hf.
  - intros (He & r & Hr & Hne). rewrite He, Hr.
    split; [|apply lookup_lt_Some in Hr; lia].
    destruct (Result (Chart r)); [congruence|reflexivity].
Qed.

Lemma filter_none_failed (P : nat -> bool) (l : list nat) :
  length (filter (fun j => P j = true) l) = 0%nat ->
  filter (fun j => P j = false) l = l.
Proof.
  induction l as [|j l IH]; [reflexivity|]. destruct (P j) eqn:E.
  - rewrite filter_cons_True by exact E. discriminate.
  - rewrite filter_cons_False by (rewrite E; discriminate). intros H.
    rewrite filter_cons_True by exact E. now rewrite IH.
Qed.

Lemma filter_all_failed (P : nat -> bool) (l : list nat) :
  (forall j, j ∈ l -> P j = true) -> filter (fun j => P j = false) l = [].
Proof.
  induction l as [|j l IH]; [reflexivity|]. intros H.
  rewrite filter_cons_False by (rewrite (H j) by left; discriminate).
  apply IH. intros k Hk. apply H. now right.
Qed.

Lemma all_failed_quotes_present (errs : list (option error))
    (responses : list stockResponseJson) :
  (forall i, (i < length responses)%nat -> failed_at errs responses i = true) ->
  quotes_present errs responses = true.
Proof.
  intros H. unfold quotes_present. apply forallb_forall. intros i Hi.
  apply in_seq in Hi. specialize (H i ltac:(lia)).
  unfold failed_at, unit_failed in H. unfold quote_missing_at.
  destruct (errs !! i) as [[e|]|]; try reflexivity.
  destruct (responses !! i) as [r|]; [|reflexivity].
  destruct (Result (Chart r)); [reflexivity|discriminate].
Qed.

(** *** The executor model *)

Section Pool.

Context {I O : Type} (zero : O).

Lemma complete_unit_length (job : workerPoolJob I O)
    (st : list O * list (option error)) (i : nat) :
  length (complete_unit zero job st i).1 = length st.1 /\
  length (complete_unit zero job st i).2 = length st.2.
Proof.
  unfold complete_unit. destruct (data job !! i); [|done].
  cbn [fst snd]. now rewrite !length_insert.
Qed.

Lemma foldl_complete_length (job : workerPoolJob I O) (sched : list nat)
    (st : list O * list (option error)) :
  length (foldl (complete_unit zero job) st sched).1 = length st.1 /\
  length (foldl (complete_unit zero job) st sched).2 = length st.2.
Proof.
  revert st. induction sched as [|j sched IH]; intros st; [done|].
  cbn [foldl]. destruct (IH (complete_unit zero job st j)) as [-> ->].
  apply complete_unit_length.
Qed.

(** Whatever the order of completion, the slot of a unit that completed holds
    that unit's outcome: a later completion only writes its own slot. *)
Lemma foldl_complete_lookup (job : workerPoolJob I O) (sched : list nat)
    (st : list O * list (option error)) (i : nat) (input : I) :
  data job !! i = Some input ->
  i ∈ sched ->
  length st.1 = length (data job) ->
  length st.2 = length (data job) ->
  (foldl (complete_unit zero job) st sched).1 !! i
    = Some (protected_call zero job input).1 /\
  (foldl (complete_unit zero job) st sched).2 !! i
    = Some (protected_call zero job input).2.
Proof.
  intros Hin. induction sched as [|j sched IH] using rev_ind; intros Hi H1 H2.
  - now apply elem_of_nil in Hi.
  - rewrite foldl_snoc.
    destruct (foldl_complete_length job sched st) as [L1 L2].
    set (st' := foldl (complete_unit zero job) st sched) in *.
    assert (Hlt : (i < length (data job))%nat) by (eapply lookup_lt_Some; eauto).
    destruct (decide (j = i)) as [->|Hne].
    + unfold complete_unit. rewrite Hin. cbn [fst snd].
      split; apply list_lookup_insert_eq; lia.
    + apply elem_of_app in Hi as [Hi|Hi]; [|apply list_elem_of_singleton in Hi; congruence].
      destruct (IH Hi H1 H2) as [R1 R2].
      unfold complete_unit. destruct (data job !! j); [|done].
      cbn [fst snd]. now rewrite !list_lookup_insert_ne.
Qed.

Lemma workerPoolDo_spec_ran (env : PoolEnv) (job : workerPoolJob I O) :
  completion env ≡ₚ seq 0 (length (data job)) ->
  substrate_failure env = None ->
  workerPoolDo_spec zero env job =
    ((fun input => (protected_call zero job input).1) <$> data job,
     (fun input => (protected_call zero job input).2) <$> data job,
     if Nat.eqb (length (data job)) 0 then nothing_to_do env else None).
Proof.
  intros Hperm Hsub. unfold workerPoolDo_spec. rewrite Hsub.
  destruct (data job) as [|x l] eqn:Hdata; [reflexivity|].
  rewrite <- Hdata in *. replace (Nat.eqb (length (data job)) 0) with false
    by (rewrite Hdata; reflexivity).
  set (st0 := (replicate (length (data job)) zero,
               replicate (length (data job)) (None : option error))).
  assert (L1 : length (foldl (complete_unit zero job) st0 (completion env)).1
               = length (data job)).
  { rewrite (proj1 (foldl_complete_length job (completion env) st0)).
    apply length_replicate. }
  assert (L2 : length (foldl (complete_unit zero job) st0 (completion env)).2
               = length (data job)).
  { rewrite (proj2 (foldl_complete_length job (completion env) st0)).
    apply length_replicate. }
  assert (Hslot : forall i input, data job !! i = Some input ->
    (foldl (complete_unit zero job) st0 (completion env)).1 !! i
      = Some (protected_call zero job input).1 /\
    (foldl (complete_unit zero job) st0 (completion env)).2 !! i
      = Some (protected_call zero job input).2).
  { intros i input Hi. apply foldl_complete_lookup; [exact Hi| | |].
    - rewrite Hperm. apply elem_of_seq. apply lookup_lt_Some in Hi. lia.
    - apply length_replicate.
    - apply length_replicate. }
  f_equal. f_equal; apply list_eq; intros i; rewrite list_lookup_fmap;
    destruct (data job !! i) as [input|] eqn:Hi; cbn [fmap option_map option_fmap].
  - apply (Hslot i input Hi).
  - apply lookup_ge_None_2. apply lookup_ge_None_1 in Hi. lia.
  - apply (Hslot i input Hi).
  - apply lookup_ge_None_2. apply lookup_ge_None_1 in Hi. lia.
Qed.

(** C5.  For every batch size N >= 0, every mix of per-unit values, errors
    and panics, and every order in which the units complete (each unit
    completing once), the executor returns result and error sequences of
    length N; and whenever the execution substrate started, slot i of either
    sequence holds the outcome of input unit i, so that the output order is
    the input order whatever the completion order was. *)
Theorem workerPoolDo_index_stable (env : PoolEnv) (job : workerPoolJob I O) :
  completion env ≡ₚ seq 0 (length (data job)) ->
  let '(results, errs, _) := workerPoolDo_spec zero env job in
  length results = length (data job) /\
  length errs = length (data job) /\
  (substrate_failure env = None ->
   results = (fun input => (protected_call zero job input).1) <$> data job /\
   errs = (fun input => (protected_call zero job input).2) <$> data job).
Proof.
  intros Hperm. destruct (substrate_failure env) as [e|] eqn:Hsub.
  - unfold workerPoolDo_spec. rewrite Hsub.
    destruct (Nat.eqb (length (data job)) 0);
      (split; [apply length_replicate|split; [apply length_replicate|discriminate]]).
  - rewrite (workerPoolDo_spec_ran env job Hperm Hsub).
    rewrite !length_fmap. auto.
Qed.

End Pool.

(** *** Claims about FetchStocksDataFromYahoo *)

(** C1 (amended).  When the pool reports no batch error and returns one
    response and one error per request, and k of the N units are failed units
    with 0 < k < N, a unit being failed when its error is non-nil or its
    response carries no chart result, then FetchStocksDataFromYahoo returns the
    usable stocks with an error wrapping ErrPartialContent whose count is k;
    the stocks are N - k in number and are those of the usable units in input
    order.  Units whose first chart result has no quote series are outside the
    statement. *)
Theorem partial_content_counts_failed_units
    (stockRequests : list StockRequest)
    (responses : list stockResponseJson) (errs : list (option error)) :
  workerPoolDo (newJob decodeJsonFromRequestTask (buildRequests stockRequests))
    = (responses, errs, None) ->
  length responses = length stockRequests ->
  length errs = length stockRequests ->
  quotes_present errs responses = true ->
  (0 < failure_count errs responses < length stockRequests)%nat ->
  exists stocks : Stocks,
    FetchStocksDataFromYahoo stockRequests =
      Returns (stocks,
               Some (Errorf_w "%w: could not fetch data for %d stock(s)"
                       (Sentinel ErrPartialContent)
                       (Verb_d (Z.of_nat (failure_count errs responses))))) /\
    length stocks = (length stockRequests - failure_count errs responses)%nat /\
    Forall2 (fun i s => stockAt stockRequests responses i = Some s)
      (usable_indices errs responses) stocks /\
    usable_indices errs responses `sublist_of` seq 0 (length stockRequests).
Proof.
  intros Hpool Hresp Herrs Hq Hk.
  destruct (FetchStocksDataFromYahoo_classify _ _ _ Hpool Hresp Herrs Hq)
    as (stocks & HF & Hfetch).
  pose proof (usable_failed_partition errs responses) as Hpart.
  pose proof (Forall2_length _ _ _ HF) as Hlen.
  exists stocks. split; [|split; [lia|split; [exact HF|]]].
  - rewrite Hfetch. unfold classify.
    replace (Nat.eqb (length stocks) 0) with false
      by (symmetry; apply Nat.eqb_neq; lia).
    replace (0 <? Z.of_nat (failure_count errs responses)) with true
      by (symmetry; apply Z.ltb_lt; lia).
    reflexivity.
  - rewrite <- Hresp. apply usable_indices_sublist.
Qed.

(** C2.  When the pool reports no batch error, returns one response and one
    error per request, and every unit fails (its error is non-nil or, failing
    that, its response carries no chart result), FetchStocksDataFromYahoo
    returns no stocks and the ErrNoContent error. *)
Theorem all_units_fail_no_content
    (stockRequests : list StockRequest)
    (responses : list stockResponseJson) (errs : list (option error)) :
  workerPoolDo (newJob decodeJsonFromRequestTask (buildRequests stockRequests))
    = (responses, errs, None) ->
  length responses = length stockRequests ->
  length errs = length stockRequests ->
  (forall i, (i < length stockRequests)%nat -> failed_at errs responses i = true) ->
  FetchStocksDataFromYahoo stockRequests = Returns ([], Some (Sentinel ErrNoContent)).
Proof.
  intros Hpool Hresp Herrs Hall. rewrite <- Hresp in Hall.
  destruct (FetchStocksDataFromYahoo_classify _ _ _ Hpool Hresp Herrs
              (all_failed_quotes_present _ _ Hall)) as (stocks & HF & Hfetch).
  unfold usable_indices in HF. rewrite filter_all_failed in HF.
  - apply Forall2_nil_inv_l in HF. subst stocks. exact Hfetch.
  - intros j Hj. apply elem_of_seq in Hj. apply Hall. lia.
Qed.

(** C3 (amended).  When the pool reports no batch error and returns one
    response and one error per request, the stocks FetchStocksDataFromYahoo
    returns are those of exactly the indices i at which errs[i] is nil and
    response i carries at least one chart result, in input order.  Units whose
    first chart result has no quote series are outside the statement. *)
Theorem classification_keeps_usable_units
    (stockRequests : list StockRequest)
    (responses : list stockResponseJson) (errs : list (option error)) :
  workerPoolDo (newJob decodeJsonFromRequestTask (buildRequests stockRequests))
    = (responses, errs, None) ->
  length responses = length stockRequests ->
  length errs = length stockRequests ->
  quotes_present errs responses = true ->
  exists (stocks : Stocks) (err : option error) (kept : list nat),
    FetchStocksDataFromYahoo stockRequests = Returns (stocks, err) /\
    Forall2 (fun i s => stockAt stockRequests responses i = Some s) kept stocks /\
    kept `sublist_of` seq 0 (length stockRequests) /\
    forall i, i ∈ kept <->
      errs !! i = Some None /\
      exists response,
        responses !! i = Some response /\ Result (Chart response) <> [].
Proof.
  intros Hpool Hresp Herrs Hq.
  destruct (FetchStocksDataFromYahoo_classify _ _ _ Hpool Hresp Herrs Hq)
    as (stocks & HF & Hfetch).
  exists stocks, (classify stocks (Z.of_nat (failure_count errs responses))).2,
    (usable_indices errs responses).
  split; [|split; [exact HF|split]].
  - rewrite Hfetch. f_equal.
    rewrite <- (classify_fst stocks (Z.of_nat (failure_count errs responses))) at 2.
    now destruct (classify _ _).
  - rewrite <- Hresp. apply usable_indices_sublist.
  - apply usable_indices_elem.
Qed.

(** C4 (amended).  When the pool reports no batch error, returns one response
    and one error per request of a non-empty batch, and no unit is a failed
    unit (every error is nil and every response carries a chart result), then
    FetchStocksDataFromYahoo returns a nil error and N stocks, stock i being
    the one of unit i.  Units whose first chart result has no quote series are
    outside the statement. *)
Theorem no_failure_full_success
    (stockRequests : list StockRequest)
    (responses : list stockResponseJson) (errs : list (option error)) :
  workerPoolDo (newJob decodeJsonFromRequestTask (buildRequests stockRequests))
    = (responses, errs, None) ->
  length responses = length stockRequests ->
  length errs = length stockRequests ->
  quotes_present errs responses = true ->
  (0 < length stockRequests)%nat ->
  failure_count errs responses = 0%nat ->
  exists stocks : Stocks,
    FetchStocksDataFromYahoo stockRequests = Returns (stocks, None) /\
    length stocks = length stockRequests /\
    Forall2 (fun i s => stockAt stockRequests responses i = Some s)
      (seq 0 (length stockRequests)) stocks.
Proof.
  intros Hpool Hresp Herrs Hq HN Hk.
  destruct (FetchStocksDataFromYahoo_classify _ _ _ Hpool Hresp Herrs Hq)
    as (stocks & HF & Hfetch).
  assert (Hall : usable_indices errs responses = seq 0 (length stockRequests)).
  { unfold usable_indices. rewrite <- Hresp. apply filter_none_failed. exact Hk. }
  rewrite Hall in HF. pose proof (Forall2_length _ _ _ HF) as Hlen.
  rewrite length_seq in Hlen.
  exists stocks. split; [|split; [lia|exact HF]].
  rewrite Hfetch, Hk. unfold classify.
  replace (Nat.eqb (length stocks) 0) with false
    by (symmetry; apply Nat.eqb_neq; lia).
  reflexivity.
Qed.

(** C7.  When the pool reports a batch error, FetchStocksDataFromYahoo returns
    no stocks and a single error that wraps ErrNoContent around that batch
    error, whatever the per-unit results and errors are; and in the executor
    the batch error is the same for every task, so per-unit failures never
    produce one: once the substrate started, a non-empty batch has none. *)
Theorem batch_error_is_terminal :
  (forall (stockRequests : list StockRequest)
          (responses : list stockResponseJson) (errs : list (option error))
          (batchErr : error),
     workerPoolDo (newJob decodeJsonFromRequestTask (buildRequests stockRequests))
       = (responses, errs, Some batchErr) ->
     FetchStocksDataFromYahoo stockRequests =
       Returns ([], Some (Errorf_w "%w: %v" (Sentinel ErrNoContent) (Verb_v batchErr))) /\
     errors_Is (Errorf_w "%w: %v" (Sentinel ErrNoContent) (Verb_v batchErr))
       ErrNoContent = true) /\
  (forall (I O : Type) (zero : O) (env : PoolEnv) (inputs : list I)
          (task1 task2 : I -> outcome (O * option error)),
     (workerPoolDo_spec zero env (newJob task1 inputs)).2
     = (workerPoolDo_spec zero env (newJob task2 inputs)).2) /\
  (forall (I O : Type) (zero : O) (env : PoolEnv) (job : workerPoolJob I O),
     substrate_failure env = None -> data job <> [] ->
     (workerPoolDo_spec zero env job).2 = None).
Proof.
  split; [|split].
  - intros stockRequests responses errs batchErr Hpool.
    unfold FetchStocksDataFromYahoo. rewrite Hpool. split; reflexivity.
  - intros I O zero env inputs task1 task2. unfold workerPoolDo_spec.
    cbn [data]. destruct (Nat.eqb (length inputs) 0); [reflexivity|].
    now destruct (substrate_failure env).
  - intros I O zero env job Hsub Hne. unfold workerPoolDo_spec. rewrite Hsub.
    destruct (data job); [congruence|reflexivity].
Qed.

(** *** Further properties of FetchStocksDataFromYahoo *)

Lemma index_out_of_range {A} (s : list A) (i : nat) :
  s !! i = None -> index s i = Panics "index out of range".
Proof. intros H. unfold index. now rewrite H. Qed.

(** The loop accounts for every response: each one is either appended to the
    stocks or counted in [failed]. *)
Lemma fetchLoop_accounts (stockRequests : list StockRequest)
    (errs : list (option error)) :
  forall (rest : list stockResponseJson) (i : nat) (stocks stocks' : Stocks)
         (failed failed' : Z),
    fetchLoop stockRequests errs i rest stocks failed = Returns (stocks', failed') ->
    Z.of_nat (length stocks') + failed'
    = Z.of_nat (length stocks) + failed + Z.of_nat (length rest) /\
    failed <= failed'.
Proof.
  induction rest as [|response rest IH]; intros i stocks stocks' failed failed' H.
  - cbn in H. injection H as <- <-. cbn [length]. lia.
  - cbn [fetchLoop] in H.
    destruct (index errs i) as [err|msg]; [|discriminate].
    destruct (index stockRequests i) as [request|msg]; [|discriminate].
    cbn [mbind outcome_bind bind] in H.
    destruct err as [e|].
    + apply IH in H. cbn [length]. lia.
    + destruct (Nat.eqb (length (Result (Chart response))) 0).
      * apply IH in H. cbn [length]. lia.
      * destruct (index (Result (Chart response)) 0) as [result0|msg]; [|discriminate].
        cbn [mbind outcome_bind bind] in H.
        destruct (index (Quote (Indicators result0)) 0) as [quote0|msg]; [|discriminate].
        cbn [mbind outcome_bind bind] in H.
        apply IH in H. rewrite length_app in H. cbn [length] in *. lia.
Qed.

(** The loop panics when a unit it keeps has no quote series. *)
Lemma fetchLoop_missing_quote (stockRequests : list StockRequest)
    (errs : list (option error)) (responses : list stockResponseJson) :
  forall (rest : list stockResponseJson) (i : nat) (stocks : Stocks) (failed : Z),
    drop i responses = rest ->
    (exists j, (i <= j)%nat /\ quote_missing_at errs responses j = true) ->
    fetchLoop stockRequests errs i rest stocks failed = Panics "index out of range".
Proof.
  induction rest as [|response rest IH]; intros i stocks failed Hdrop (j & Hj & Hq).
  - exfalso. unfold quote_missing_at in Hq.
    assert (Hlen : (length responses <= i)%nat).
    { apply (f_equal length) in Hdrop. rewrite length_drop in Hdrop. cbn in Hdrop. lia. }
    rewrite (lookup_ge_None_2 responses j) in Hq by lia.
    now destruct (errs !! j) as [[?|]|].
  - apply drop_cons_lookup in Hdrop as [Hi Hdrop]. cbn [fetchLoop].
    destruct (errs !! i) as [err|] eqn:Herr;
      [rewrite (index_lookup _ _ _ Herr)|now rewrite (index_out_of_range _ _ Herr)].
    cbn [mbind outcome_bind bind].
    destruct (stockRequests !! i) as [request|] eqn:Hreq;
      [rewrite (index_lookup _ _ _ Hreq)|now rewrite (index_out_of_range _ _ Hreq)].
    cbn [mbind outcome_bind bind].
    assert (Hnext : quote_missing_at errs responses i = false ->
                    exists j', (S i <= j')%nat /\ quote_missing_at errs responses j' = true).
    { intros Hi'. exists j. split; [|exact Hq].
      destruct (decide (j = i)) as [->|]; [congruence|lia]. }
    destruct err as [e|].
    + apply IH; [exact Hdrop|]. apply Hnext. unfold quote_missing_at. now rewrite Herr.
    + destruct (Result (Chart response)) as [|result0 results] eqn:Hres.
      * cbn [length Nat.eqb]. apply IH; [exact Hdrop|]. apply Hnext.
        unfold quote_missing_at. now rewrite Herr, Hi, Hres.
      * cbn [length Nat.eqb index lookup list_lookup mbind outcome_bind bind].
        destruct (Quote (Indicators result0)) as [|quote0 quotes] eqn:Hquote;
          [reflexivity|].
        cbn [index lookup list_lookup mbind outcome_bind bind].
        apply IH; [exact Hdrop|]. apply Hnext.
        unfold quote_missing_at. now rewrite Herr, Hi, Hres, Hquote.
Qed.

(** The loop panics when it runs past the end of the errors or of the
    requests. *)
Lemma fetchLoop_short (stockRequests : list StockRequest)
    (errs : list (option error)) :
  forall (rest : list stockResponseJson) (i : nat) (stocks : Stocks) (failed : Z),
    (i <= length errs < i + length rest \/
     i <= length stockRequests < i + length rest)%nat ->
    fetchLoop stockRequests errs i rest stocks failed = Panics "index out of range".
Proof.
  induction rest as [|response rest IH]; intros i stocks failed Hshort.
  - cbn [length] in Hshort. lia.
  - cbn [fetchLoop length] in *.
    destruct (errs !! i) as [err|] eqn:Herr;
      [rewrite (index_lookup _ _ _ Herr)|now rewrite (index_out_of_range _ _ Herr)].
    cbn [mbind outcome_bind bind].
    destruct (stockRequests !! i) as [request|] eqn:Hreq;
      [rewrite (index_lookup _ _ _ Hreq)|now rewrite (index_out_of_range _ _ Hreq)].
    cbn [mbind outcome_bind bind].
    apply lookup_lt_Some in Herr, Hreq.
    assert (Hnext : (S i <= length errs < S i + length rest \/
                     S i <= length stockRequests < S i + length rest)%nat) by lia.
    destruct err as [e|]; [now apply IH|].
    destruct (Result (Chart response)) as [|result0 results];
      cbn [length Nat.eqb index lookup list_lookup mbind outcome_bind bind];
      [now apply IH|].
    destruct (Quote (Indicators result0)) as [|quote0 quotes]; [reflexivity|].
    cbn [index lookup list_lookup mbind outcome_bind bind]. now apply IH.
Qed.

(** The loop returns when every index is in range and every kept unit has a
    quote series. *)
Lemma fetchLoop_returns (stockRequests : list StockRequest)
    (errs : list (option error)) (responses : list stockResponseJson) :
  (length responses <= length errs)%nat ->
  (length responses <= length stockRequests)%nat ->
  (forall j, quote_missing_at errs responses j = false) ->
  forall (rest : list stockResponseJson) (i : nat) (stocks : Stocks) (failed : Z),
    drop i responses = rest ->
    exists r, fetchLoop stockRequests errs i rest stocks failed = Returns r.
Proof.
  intros Herrs Hreqs Hq. induction rest as [|response rest IH];
    intros i stocks failed Hdrop; [eexists; reflexivity|].
  apply drop_cons_lookup in Hdrop as [Hi Hdrop].
  pose proof (lookup_lt_Some _ _ _ Hi) as Hlt.
  destruct (lookup_lt_is_Some_2 errs i) as [err Herr]; [lia|].
  destruct (lookup_lt_is_Some_2 stockRequests i) as [request Hreq]; [lia|].
  cbn [fetchLoop]. rewrite (index_lookup _ _ _ Herr), (index_lookup _ _ _ Hreq).
  cbn [mbind outcome_bind bind].
  destruct err as [e|]; [now apply IH|].
  destruct (Result (Chart response)) as [|result0 results] eqn:Hres;
    cbn [length Nat.eqb index lookup list_lookup mbind outcome_bind bind];
    [now apply IH|].
  specialize (Hq i). unfold quote_missing_at in Hq. rewrite Herr, Hi, Hres in Hq.
  destruct (Quote (Indicators result0)) as [|quote0 quotes]; [discriminate|].
  cbn [index lookup list_lookup mbind outcome_bind bind]. now apply IH.
Qed.

Lemma quotes_absent_spec (errs : list (option error))
    (responses : list stockResponseJson) :
  quotes_present errs responses = false ->
  exists j, quote_missing_at errs responses j = true.
Proof.
  unfold quotes_present.
  induction (seq 0 (length responses)) as [|j l IH]; [discriminate|].
  cbn [forallb]. destruct (quote_missing_at errs responses j) eqn:E; [eauto|].
  exact IH.
Qed.

(** X1.  When the pool reports no batch error, FetchStocksDataFromYahoo
    returns, rather than panics, exactly when the pool delivered at least as
    many errors and there are at least as many requests as responses, and
    every unit the loop keeps (nil error, a chart result) has a quote series
    in its first chart result. *)
Theorem FetchStocksDataFromYahoo_returns_iff
    (stockRequests : list StockRequest)
    (responses : list stockResponseJson) (errs : list (option error)) :
  workerPoolDo (newJob decodeJsonFromRequestTask (buildRequests stockRequests))
    = (responses, errs, None) ->
  ((exists r, FetchStocksDataFromYahoo stockRequests = Returns r) <->
   (length responses <= length errs)%nat /\
   (length responses <= length stockRequests)%nat /\
   quotes_present errs responses = true).
Proof.
  intros Hpool. unfold FetchStocksDataFromYahoo. rewrite Hpool. split.
  - intros [r Hr].
    destruct (quotes_present errs responses) eqn:Hq.
    + destruct (decide (length responses <= length errs)%nat) as [He|He];
        [destruct (decide (length responses <= length stockRequests)%nat) as [Hs|Hs];
           [auto|]|];
        rewrite (fetchLoop_short stockRequests errs responses 0 [] 0) in Hr
          by lia; discriminate.
    + apply quotes_absent_spec in Hq as [j Hj].
      rewrite (fetchLoop_missing_quote stockRequests errs responses responses 0 [] 0
                 eq_refl) in Hr by (exists j; split; [lia|exact Hj]).
      discriminate.
  - intros (He & Hs & Hq).
    destruct (fetchLoop_returns stockRequests errs responses He Hs
                (quotes_present_spec _ _ Hq) responses 0%nat [] 0 eq_refl)
      as [[stocks failed] ->].
    cbn [mbind outcome_bind bind].
    destruct (Nat.eqb (length stocks) 0); [eauto|]. destruct (0 <? failed); eauto.
Qed.

(** X2.  Whatever the pool returns, a result of FetchStocksDataFromYahoo is of
    one of three kinds: at least one stock and a nil error; at least one stock
    and an error that is ErrPartialContent and not ErrNoContent; or no stock
    and an error that is ErrNoContent and not ErrPartialContent. *)
Theorem FetchStocksDataFromYahoo_result_kinds
    (stockRequests : list StockRequest) (stocks : Stocks) (err : option error) :
  FetchStocksDataFromYahoo stockRequests = Returns (stocks, err) ->
  match err with
  | None => stocks <> []
  | Some e =>
      (stocks <> [] /\ errors_Is e ErrPartialContent = true /\
       errors_Is e ErrNoContent = false) \/
      (stocks = [] /\ errors_Is e ErrNoContent = true /\
       errors_Is e ErrPartialContent = false)
  end.
Proof.
  unfold FetchStocksDataFromYahoo.
  destruct (workerPoolDo _) as [[responses errs] [batchErr|]].
  - intros [= <- <-]. right. repeat split.
  - destruct (fetchLoop stockRequests errs 0 responses [] 0) as [[stocks' failed]|msg];
      [|discriminate].
    cbn [mbind outcome_bind bind].
    destruct stocks' as [|s stocks'].
    + intros [= <- <-]. right. repeat split.
    + cbn [length Nat.eqb]. destruct (0 <? failed); intros [= <- <-].
      * left. repeat split. discriminate.
      * discriminate.
Qed.

(** X3.  When the pool reports no batch error and the function returns, the
    stocks and the failures add up to the responses: a nil error comes with
    one stock per response, a partial-content error carries a count k > 0
    with as many stocks as responses less k, and ErrNoContent means that no
    response gave a stock. *)
Theorem FetchStocksDataFromYahoo_accounts
    (stockRequests : list StockRequest)
    (responses : list stockResponseJson) (errs : list (option error))
    (stocks : Stocks) (err : option error) :
  workerPoolDo (newJob decodeJsonFromRequestTask (buildRequests stockRequests))
    = (responses, errs, None) ->
  FetchStocksDataFromYahoo stockRequests = Returns (stocks, err) ->
  match err with
  | None => length stocks = length responses
  | Some (Errorf_w _ _ (Verb_d k)) =>
      0 < k /\ Z.of_nat (length stocks) + k = Z.of_nat (length responses)
  | Some _ => stocks = []
  end.
Proof.
  intros Hpool. unfold FetchStocksDataFromYahoo. rewrite Hpool.
  destruct (fetchLoop stockRequests errs 0 responses [] 0)
    as [[stocks' failed]|msg] eqn:Hloop; [|discriminate].
  apply fetchLoop_accounts in Hloop as [Hsum Hmono]. cbn [length] in Hsum.
  cbn [mbind outcome_bind bind].
  destruct (Nat.eqb (length stocks') 0) eqn:Hempty.
  - intros [= <- <-]. reflexivity.
  - destruct (Z.ltb_spec 0 failed); intros [= <- <-]; [lia|].
    apply Nat2Z.inj. lia.
Qed.

(** X4.  A stock depends on the last 21 closing prices only: closing prices
    older than that change nothing in it. *)
Theorem makeStock_last_21_days (request : StockRequest) (result0 : ResultJson)
    (older recent : list float) :
  (stockChartDays <= length recent)%nat ->
  makeStock request result0 {| Close := older ++ recent |}
  = makeStock request result0 {| Close := recent |}.
Proof.
  intros Hlen. unfold makeStock. cbn [Close].
  assert (Hwin :
    (if Nat.ltb stockChartDays (length (older ++ recent))
     then drop (length (older ++ recent) - stockChartDays) (older ++ recent)
     else older ++ recent)
    = (if Nat.ltb stockChartDays (length recent)
       then drop (length recent - stockChartDays) recent else recent)).
  { rewrite length_app.
    destruct (Nat.ltb_spec stockChartDays (length recent)) as [Hr|Hr].
    - replace (Nat.ltb stockChartDays (length older + length recent)) with true
        by (symmetry; apply Nat.ltb_lt; lia).
      rewrite drop_app_ge by lia. f_equal. lia.
    - assert (length recent = stockChartDays) as Heq by lia.
      destruct (Nat.ltb_spec stockChartDays (length older + length recent)) as [Ho|Ho].
      + rewrite drop_app_ge by lia.
        replace (length older + length recent - stockChartDays - length older)%nat
          with 0%nat by lia.
        reflexivity.
      + destruct older; [reflexivity|cbn [length] in Ho; lia]. }
  rewrite Hwin. reflexivity.
Qed.

End Fetch.

(** *** Scripted scenarios

    A scripted network and the executor model stand in for the parts that are
    not in the sources, so that the function can be run on concrete batches. *)

Definition zero_response : stockResponseJson := {| Chart := {| Result := [] |} |}.

Definition quoted_response (symbol : string) (closes : list float)
    : stockResponseJson :=
  {| Chart := {| Result :=
       [ {| Meta := {| Meta_Symbol := symbol;
                       RegularMarketPrice := 10%float;
                       ChartPreviousClose := 8%float |};
            Indicators := {| Quote := [ {| Close := closes |} ] |} |} ] |} |}.

Definition unquoted_response (symbol : string) : stockResponseJson :=
  {| Chart := {| Result :=
       [ {| Meta := {| Meta_Symbol := symbol;
                       RegularMarketPrice := 10%float;
                       ChartPreviousClose := 8%float |};
            Indicators := {| Quote := [] |} |} ] |} |}.

Definition chart_url (symbol : string) : string :=
  "https://query1.finance.yahoo.com/v8/finance/chart/" +:+ symbol
    +:+ "?range=1mo&interval=1d".

(** The symbol DOWN gets a transport error, EMPTY a response without chart
    result, BARE a chart result without quote series, CRASH a panicking
    decoder; every other symbol gets two closing prices. *)
Definition scripted_task (url : string)
    : outcome (stockResponseJson * option error) :=
  if String.eqb url (chart_url "DOWN")
  then Returns (zero_response, Some (External "connection refused"))
  else if String.eqb url (chart_url "EMPTY") then Returns (zero_response, None)
  else if String.eqb url (chart_url "BARE") then Returns (unquoted_response "BARE", None)
  else if String.eqb url (chart_url "CRASH") then Panics "nil pointer dereference"
  else Returns (quoted_response "ACME" [8%float; 10%float], None).

(** The units complete in the reverse of the input order. *)
Definition later_first (n : nat) : PoolEnv :=
  {| completion := reverse (seq 0 n);
     substrate_failure := None;
     nothing_to_do := None |}.

Definition scripted_pool (env : PoolEnv) (job : workerPoolJob string stockResponseJson)
    : list stockResponseJson * list (option error) * option error :=
  workerPoolDo_spec zero_response env job.

Definition scripted_fetch (env : PoolEnv) (stockRequests : list StockRequest)
    : outcome (Stocks * option error) :=
  FetchStocksDataFromYahoo string (fun _ url => url) scripted_task
    (scripted_pool env) (fun _ _ _ => "polyline") (fun prices => prices)
    (fun current previous => ((current / previous - 1) * 100)%float)
    stockRequests.

Definition scripted_stockAt (stockRequests : list StockRequest)
    (responses : list stockResponseJson) (i : nat) : option Stock :=
  stockAt (fun _ _ _ => "polyline") (fun prices => prices)
    (fun current previous => ((current / previous - 1) * 100)%float)
    stockRequests responses i.

Definition request_for (symbol : string) : StockRequest :=
  {| Req_Symbol := symbol; Req_Name := symbol |}.

Definition down_error : option error := Some (External "connection refused").

Definition five_requests : list StockRequest :=
  request_for <$> ["A"; "DOWN"; "B"; "DOWN"; "C"].

Definition five_responses : list stockResponseJson :=
  [quoted_response "ACME" [8%float; 10%float]; zero_response;
   quoted_response "ACME" [8%float; 10%float]; zero_response;
   quoted_response "ACME" [8%float; 10%float]].

Definition five_errs : list (option error) :=
  [None; down_error; None; down_error; None].

Definition three_requests : list StockRequest :=
  request_for <$> ["A"; "EMPTY"; "DOWN"].

Definition stock_named (name : string) : Stock :=
  {| Name := name; Symbol := "ACME"; Price := 10%float;
     PercentChange := 25%float; SvgChartPoints := "polyline" |}.

(** The substrate cannot be started. *)
Definition pool_down : PoolEnv :=
  {| completion := [];
     substrate_failure := Some (External "worker pool could not be started");
     nothing_to_do := None |}.

(** *** The empty batch *)

(** C6 (amended).  A batch with zero units yields empty result and error
    sequences from the executor together with its one chosen signal for an
    empty batch (none, or the nothing-to-do error); FetchStocksDataFromYahoo
    classifies the empty batch as NoContent in either case: ErrNoContent itself
    when the executor signals nothing, ErrNoContent wrapping the signal
    otherwise. *)
Theorem empty_batch_is_no_content
    (Request : Type) (http_NewRequest : string -> string -> Request)
    (decodeJsonFromRequestTask : Request -> outcome (stockResponseJson * option error))
    (SvgPolylineCoordsFromYValues : float -> float -> list float -> string)
    (maybeCopySliceWithoutZeroValues : list float -> list float)
    (percentChange : float -> float -> float)
    (env : PoolEnv) :
  workerPoolDo_spec zero_response env (newJob decodeJsonFromRequestTask [])
    = ([], [], nothing_to_do env) /\
  exists e : error,
    FetchStocksDataFromYahoo Request http_NewRequest decodeJsonFromRequestTask
      (workerPoolDo_spec zero_response env) SvgPolylineCoordsFromYValues
      maybeCopySliceWithoutZeroValues percentChange []
    = Returns ([], Some e) /\
    errors_Is e ErrNoContent = true /\
    e = match nothing_to_do env with
        | None => Sentinel ErrNoContent
        | Some signal => Errorf_w "%w: %v" (Sentinel ErrNoContent) (Verb_v signal)
        end.
Proof.
  split; [reflexivity|].
  unfold FetchStocksDataFromYahoo, workerPoolDo_spec.
  cbn [buildRequests fmap list_fmap data length Nat.eqb replicate].
  destruct (nothing_to_do env) as [signal|]; eexists; repeat split.
Qed.

(** The empty batch, run: NoContent although N = 0. *)
Lemma empty_batch_run :
  scripted_fetch (later_first 0) [] = Returns ([], Some (Sentinel ErrNoContent)) /\
  errors_Is (Sentinel ErrNoContent) ErrNoContent = true /\
  length ([] : list StockRequest) = 0%nat.
Proof. repeat split. Qed.

(** *** The claims on scripted batches *)

(** Five units, those at indices 1 and 3 failing, the later units completing
    first: three stocks in the order 0, 2, 4 and a partial-content error that
    counts 2. *)
Lemma partial_content_scenario :
  exists stocks : Stocks,
    scripted_fetch (later_first 5) five_requests =
      Returns (stocks,
               Some (Errorf_w "%w: could not fetch data for %d stock(s)"
                       (Sentinel ErrPartialContent) (Verb_d 2))) /\
    length stocks = 3%nat /\
    Forall2 (fun i s => scripted_stockAt five_requests five_responses i = Some s)
      [0; 2; 4]%nat stocks /\
    [0; 2; 4]%nat `sublist_of` seq 0 5.
Proof.
  apply (partial_content_counts_failed_units string (fun _ url => url)
           scripted_task (scripted_pool (later_first 5))
           (fun _ _ _ => "polyline") (fun prices => prices)
           (fun current previous => ((current / previous - 1) * 100)%float)
           five_requests five_responses five_errs);
    [vm_compute; reflexivity | reflexivity | reflexivity | reflexivity
    | vm_compute; lia].
Defined.

(** One unit of three has a non-nil error, yet the error counts 2 and one
    stock is returned: the unit with a nil error and an empty chart result is
    counted as well. *)
Lemma partial_content_not_error_count :
  scripted_pool (later_first 3)
    (newJob scripted_task (buildRequests string (fun _ url => url) three_requests))
    = ([quoted_response "ACME" [8%float; 10%float]; zero_response; zero_response],
       [None; None; down_error], None) /\
  error_count [None; None; down_error] = 1%nat /\
  scripted_fetch (later_first 3) three_requests =
    Returns ([stock_named "A"],
             Some (Errorf_w "%w: could not fetch data for %d stock(s)"
                     (Sentinel ErrPartialContent) (Verb_d 2))).
Proof. repeat split; vm_compute; reflexivity. Qed.

(** A transport error, an empty chart result and a panicking decoder. *)
Lemma all_units_fail_scenario :
  scripted_fetch (later_first 3) (request_for <$> ["DOWN"; "EMPTY"; "CRASH"])
    = Returns ([], Some (Sentinel ErrNoContent)).
Proof.
  apply (all_units_fail_no_content string (fun _ url => url)
           scripted_task (scripted_pool (later_first 3))
           (fun _ _ _ => "polyline") (fun prices => prices)
           (fun current previous => ((current / previous - 1) * 100)%float)
           (request_for <$> ["DOWN"; "EMPTY"; "CRASH"])
           [zero_response; zero_response; zero_response]
           [down_error; None; Some (External "nil pointer dereference")]);
    [vm_compute; reflexivity | reflexivity | reflexivity |].
  intros i Hi. destruct i as [|[|[|i]]]; [reflexivity..|cbn in Hi; lia].
Defined.

Lemma classification_scenario :
  exists (stocks : Stocks) (err : option error) (kept : list nat),
    scripted_fetch (later_first 5) five_requests = Returns (stocks, err) /\
    Forall2 (fun i s => scripted_stockAt five_requests five_responses i = Some s)
      kept stocks /\
    kept `sublist_of` seq 0 5 /\
    forall i, i ∈ kept <->
      five_errs !! i = Some None /\
      exists response,
        five_responses !! i = Some response /\ Result (Chart response) <> [].
Proof.
  apply (classification_keeps_usable_units string (fun _ url => url)
           scripted_task (scripted_pool (later_first 5))
           (fun _ _ _ => "polyline") (fun prices => prices)
           (fun current previous => ((current / previous - 1) * 100)%float)
           five_requests five_responses five_errs);
    [vm_compute; reflexivity | reflexivity | reflexivity | reflexivity].
Defined.

(** No error is reported for any of the three units, but only units 0 and 2
    are in the output: unit 1 has a nil error and an empty chart result. *)
Lemma empty_chart_result_dropped :
  scripted_pool (later_first 3)
    (newJob scripted_task
       (buildRequests string (fun _ url => url) (request_for <$> ["A"; "EMPTY"; "B"])))
    = ([quoted_response "ACME" [8%float; 10%float]; zero_response;
        quoted_response "ACME" [8%float; 10%float]],
       [None; None; None], None) /\
  scripted_fetch (later_first 3) (request_for <$> ["A"; "EMPTY"; "B"]) =
    Returns ([stock_named "A"; stock_named "B"],
             Some (Errorf_w "%w: could not fetch data for %d stock(s)"
                     (Sentinel ErrPartialContent) (Verb_d 1))).
Proof. repeat split; vm_compute; reflexivity. Qed.

Lemma no_failure_scenario :
  exists stocks : Stocks,
    scripted_fetch (later_first 2) (request_for <$> ["A"; "B"])
      = Returns (stocks, None) /\
    length stocks = 2%nat /\
    Forall2 (fun i s =>
               scripted_stockAt (request_for <$> ["A"; "B"])
                 [quoted_response "ACME" [8%float; 10%float];
                  quoted_response "ACME" [8%float; 10%float]] i = Some s)
      [0; 1]%nat stocks.
Proof.
  refine (no_failure_full_success string (fun _ url => url)
            scripted_task (scripted_pool (later_first 2))
            (fun _ _ _ => "polyline") (fun prices => prices)
            (fun current previous => ((current / previous - 1) * 100)%float)
            (request_for <$> ["A"; "B"])
            [quoted_response "ACME" [8%float; 10%float];
             quoted_response "ACME" [8%float; 10%float]]
            [None; None] _ _ _ _ _ _);
    [vm_compute; reflexivity | reflexivity | reflexivity | reflexivity
    | cbn; lia | reflexivity].
Defined.

(** No unit of the two reports an error, yet the function returns a
    partial-content error and one stock: the second response is empty. *)
Lemma no_error_yet_partial_content :
  scripted_pool (later_first 2)
    (newJob scripted_task
       (buildRequests string (fun _ url => url) (request_for <$> ["A"; "EMPTY"])))
    = ([quoted_response "ACME" [8%float; 10%float]; zero_response],
       [None; None], None) /\
  error_count [None; None] = 0%nat /\
  scripted_fetch (later_first 2) (request_for <$> ["A"; "EMPTY"]) =
    Returns ([stock_named "A"],
             Some (Errorf_w "%w: could not fetch data for %d stock(s)"
                     (Sentinel ErrPartialContent) (Verb_d 1))).
Proof. repeat split; vm_compute; reflexivity. Qed.

(** A kept unit whose first chart result has no quote series: the read of
    [Quote[0]] on line 67 panics. *)
Lemma missing_quote_series_panics :
  scripted_pool (later_first 1)
    (newJob scripted_task
       (buildRequests string (fun _ url => url) [request_for "BARE"]))
    = ([unquoted_response "BARE"], [None], None) /\
  scripted_fetch (later_first 1) [request_for "BARE"]
    = Panics "index out of range".
Proof. split; vm_compute; reflexivity. Qed.

(** Five units with values, an error and a panic, the later units completing
    first. *)
Lemma index_stable_scenario :
  let '(results, errs, _) :=
    workerPoolDo_spec zero_response (later_first 5)
      (newJob scripted_task (chart_url <$> ["A"; "DOWN"; "B"; "CRASH"; "C"])) in
  length results = 5%nat /\
  length errs = 5%nat /\
  (substrate_failure (later_first 5) = None ->
   results =
     [quoted_response "ACME" [8%float; 10%float]; zero_response;
      quoted_response "ACME" [8%float; 10%float]; zero_response;
      quoted_response "ACME" [8%float; 10%float]] /\
   errs =
     [None; down_error; None; Some (External "nil pointer dereference"); None]).
Proof.
  refine (workerPoolDo_index_stable zero_response (later_first 5)
            (newJob scripted_task (chart_url <$> ["A"; "DOWN"; "B"; "CRASH"; "C"]))
            _).
  apply reverse_Permutation.
Defined.

Lemma batch_error_scenario :
  scripted_fetch pool_down five_requests =
    Returns ([], Some (Errorf_w "%w: %v" (Sentinel ErrNoContent)
                         (Verb_v (External "worker pool could not be started")))) /\
  errors_Is (Errorf_w "%w: %v" (Sentinel ErrNoContent)
               (Verb_v (External "worker pool could not be started")))
    ErrNoContent = true.
Proof.
  apply (proj1 (batch_error_is_terminal string (fun _ url => url)
                  scripted_task (scripted_pool pool_down)
                  (fun _ _ _ => "polyline") (fun prices => prices)
                  (fun current previous => ((current / previous - 1) * 100)%float))
           five_requests (replicate 5 zero_response) (replicate 5 None)
           (External "worker pool could not be started")).
  vm_compute; reflexivity.
Defined.

(** *** The further properties on scripted batches *)

Lemma returns_iff_scenario :
  (exists r, scripted_fetch (later_first 1) [request_for "BARE"] = Returns r) <->
  (1 <= 1)%nat /\ (1 <= 1)%nat /\
  quotes_present [None] [unquoted_response "BARE"] = true.
Proof.
  refine (FetchStocksDataFromYahoo_returns_iff string (fun _ url => url)
            scripted_task (scripted_pool (later_first 1))
            (fun _ _ _ => "polyline") (fun prices => prices)
            (fun current previous => ((current / previous - 1) * 100)%float)
            [request_for "BARE"] [unquoted_response "BARE"] [None] _).
  vm_compute; reflexivity.
Defined.

Lemma result_kinds_scenario :
  ([stock_named "A"; stock_named "B"; stock_named "C"] <> [] /\
   errors_Is (Errorf_w "%w: could not fetch data for %d stock(s)"
                (Sentinel ErrPartialContent) (Verb_d 2)) ErrPartialContent = true /\
   errors_Is (Errorf_w "%w: could not fetch data for %d stock(s)"
                (Sentinel ErrPartialContent) (Verb_d 2)) ErrNoContent = false) \/
  ([stock_named "A"; stock_named "B"; stock_named "C"] = [] /\
   errors_Is (Errorf_w "%w: could not fetch data for %d stock(s)"
                (Sentinel ErrPartialContent) (Verb_d 2)) ErrNoContent = true /\
   errors_Is (Errorf_w "%w: could not fetch data for %d stock(s)"
                (Sentinel ErrPartialContent) (Verb_d 2)) ErrPartialContent = false).
Proof.
  refine (FetchStocksDataFromYahoo_result_kinds string (fun _ url => url)
            scripted_task (scripted_pool (later_first 5))
            (fun _ _ _ => "polyline") (fun prices => prices)
            (fun current previous => ((current / previous - 1) * 100)%float)
            five_requests [stock_named "A"; stock_named "B"; stock_named "C"]
            (Some (Errorf_w "%w: could not fetch data for %d stock(s)"
                     (Sentinel ErrPartialContent) (Verb_d 2))) _).
  vm_compute; reflexivity.
Defined.

Lemma accounts_scenario :
  0 < 2 /\
  Z.of_nat (length [stock_named "A"; stock_named "B"; stock_named "C"]) + 2
  = Z.of_nat (length five_responses).
Proof.
  refine (FetchStocksDataFromYahoo_accounts string (fun _ url => url)
            scripted_task (scripted_pool (later_first 5))
            (fun _ _ _ => "polyline") (fun prices => prices)
            (fun current previous => ((current / previous - 1) * 100)%float)
            five_requests five_responses five_errs
            [stock_named "A"; stock_named "B"; stock_named "C"]
            (Some (Errorf_w "%w: could not fetch data for %d stock(s)"
                     (Sentinel ErrPartialContent) (Verb_d 2))) _ _);
    vm_compute; reflexivity.
Defined.

Lemma last_21_days_scenario :
  makeStock (fun _ _ _ => "polyline") (fun prices => prices)
    (fun current previous => ((current / previous - 1) * 100)%float)
    (request_for "A") {| Meta := {| Meta_Symbol := "ACME";
                                    RegularMarketPrice := 10%float;
                                    ChartPreviousClose := 8%float |};
                         Indicators := {| Quote := [] |} |}
    {| Close := [1%float; 2%float] ++ replicate 21 5%float |}
  = makeStock (fun _ _ _ => "polyline") (fun prices => prices)
      (fun current previous => ((current / previous - 1) * 100)%float)
      (request_for "A") {| Meta := {| Meta_Symbol := "ACME";
                                      RegularMarketPrice := 10%float;
                                      ChartPreviousClose := 8%float |};
                           Indicators := {| Quote := [] |} |}
      {| Close := replicate 21 5%float |}.
Proof.
  apply (makeStock_last_21_days (fun _ _ _ => "polyline") (fun prices => prices)
           (fun current previous => ((current / previous - 1) * 100)%float)).
  vm_compute. lia.
Defined.

End Feed.

(** ** Package regexp, as far as the two patterns of fields.go need it

    Leftmost-first matching as Go's [regexp] defines it: among the matches
    that start earliest, the one a backtracking search finds first.  A thread
    is a position in the text with the submatch indexes recorded so far; [run]
    lists the threads a regular expression can end in, in the order of the
    search's preference.  The text is read byte by byte; the classes of the
    two patterns are ASCII, so no byte of a multi-byte rune is in any of
    them. *)

Module Regexp.

Local Open Scope nat_scope.

Inductive regex : Type :=
| Empty                          (* the empty string *)
| Bot                            (* ^ without the m flag: beginning of text *)
| Eot                            (* $ without the m flag: end of text *)
| Class (p : ascii -> bool)      (* one byte of a class *)
| Cat (r1 r2 : regex)
| Alt (r1 r2 : regex)            (* r1|r2, r1 preferred *)
| Quest (r : regex)              (* r?, prefer one *)
| Star (r : regex)               (* r*, prefer more *)
| Group (n : nat) (r : regex).   (* the n-th capturing group *)

(** [r+] and [r{1,3}] as the parser rewrites them. *)
Definition Plus (r : regex) : regex := Cat r (Star r).
Definition Repeat_1_3 (r : regex) : regex := Cat r (Quest (Cat r (Quest r))).

Definition Char (c : ascii) : regex := Class (Ascii.eqb c).

Fixpoint Lit (s : list ascii) : regex :=
  match s with
  | [] => Empty
  | c :: s' => Cat (Char c) (Lit s')
  end.

(** [\d] is ASCII-only: the bytes 0x30-0x39. *)
Definition is_digit (c : ascii) : bool :=
  (48 <=? N_of_ascii c)%N && (N_of_ascii c <=? 57)%N.

Fixpoint NumSubexp (r : regex) : nat :=
  match r with
  | Empty | Bot | Eot | Class _ => 0
  | Cat r1 r2 | Alt r1 r2 => NumSubexp r1 + NumSubexp r2
  | Quest r | Star r => NumSubexp r
  | Group _ r => S (NumSubexp r)
  end.

Fixpoint has_group (n : nat) (r : regex) : bool :=
  match r with
  | Empty | Bot | Eot | Class _ => false
  | Cat r1 r2 | Alt r1 r2 => has_group n r1 || has_group n r2
  | Quest r | Star r => has_group n r
  | Group m r => Nat.eqb m n || has_group n r
  end.

Abbreviation captures := (gmap nat (nat * nat)).
Definition thread : Type := nat * captures.

Section Run.

Variable text : list ascii.

(** The iterations of a star.  An iteration that consumes nothing is not
    repeated; [fuel] bounds the number of iterations by the bytes left. *)
Fixpoint star (step : nat -> captures -> list thread) (fuel : nat)
    (pos : nat) (caps : captures) : list thread :=
  match fuel with
  | O => [(pos, caps)]
  | S fuel' =>
      (t ← step pos caps;
       if Nat.ltb pos t.1 then star step fuel' t.1 t.2 else [])
      ++ [(pos, caps)]
  end.

Fixpoint run (r : regex) (pos : nat) (caps : captures) : list thread :=
  match r with
  | Empty => [(pos, caps)]
  | Bot => if Nat.eqb pos 0 then [(pos, caps)] else []
  | Eot => if Nat.eqb pos (length text) then [(pos, caps)] else []
  | Class p =>
      match text !! pos with
      | Some c => if p c then [(S pos, caps)] else []
      | None => []
      end
  | Cat r1 r2 => t ← run r1 pos caps; run r2 t.1 t.2
  | Alt r1 r2 => run r1 pos caps ++ run r2 pos caps
  | Quest r => run r pos caps ++ [(pos, caps)]
  | Star r => star (run r) (length text - pos) pos caps
  | Group n r => (fun t : thread => (t.1, <[n := (pos, t.1)]> t.2)) <$> run r pos caps
  end.

(** [text[a:b]]. *)
Definition slice (a b : nat) : list ascii := take (b - a) (drop a text).

Definition submatch (caps : captures) (n : nat) : string :=
  match caps !! n with
  | Some (a, b) => string_of_list_ascii (slice a b)
  | None => ""
  end.

(** The first thread of the earliest start that has one. *)
Definition leftmost_first (r : regex) : option (nat * thread) :=
  head (start ← seq 0 (S (length text)); (fun t => (start, t)) <$> run r start ∅).

End Run.

(** [re.FindStringSubmatch(s)]: [nil] when there is no match, else the text of
    the match followed by the text of each group. *)
Definition FindStringSubmatch (r : regex) (s : string) : list string :=
  let text := list_ascii_of_string s in
  match leftmost_first text r with
  | None => []
  | Some (start, (stop, caps)) =>
      string_of_list_ascii (slice text start stop)
        :: (submatch text caps <$> seq 1 (NumSubexp r))
  end.

Declare Scope regex_scope.
Delimit Scope regex_scope with re.
Notation "r1 +++ r2" := (Cat r1 r2) (at level 60, right associativity) : regex_scope.

(** The value of a string of decimal digits. *)
Definition digit_value (c : ascii) : Z := (Z.of_N (N_of_ascii c) - 48)%Z.

Definition decimal (digits : list ascii) : Z :=
  foldl (fun acc c => 10 * acc + digit_value c)%Z 0%Z digits.

Fixpoint group_free (r : regex) : bool :=
  match r with
  | Empty | Bot | Eot | Class _ => true
  | Cat r1 r2 | Alt r1 r2 => group_free r1 && group_free r2
  | Quest r | Star r => group_free r
  | Group _ _ => false
  end.

(** *** The matches of a regular expression, declaratively *)

Section Semantics.

Variable text : list ascii.

(** [sem r pos caps pos' caps']: [r] matches [text[pos:pos']] and turns the
    submatch indexes [caps] into [caps']. *)
Inductive sem : regex -> nat -> captures -> nat -> captures -> Prop :=
| sem_Empty pos caps : sem Empty pos caps pos caps
| sem_Bot caps : sem Bot 0 caps 0 caps
| sem_Eot caps : sem Eot (length text) caps (length text) caps
| sem_Class p pos caps c :
    text !! pos = Some c -> p c = true -> sem (Class p) pos caps (S pos) caps
| sem_Cat r1 r2 pos caps pos1 caps1 pos2 caps2 :
    sem r1 pos caps pos1 caps1 -> sem r2 pos1 caps1 pos2 caps2 ->
    sem (Cat r1 r2) pos caps pos2 caps2
| sem_Alt_l r1 r2 pos caps pos' caps' :
    sem r1 pos caps pos' caps' -> sem (Alt r1 r2) pos caps pos' caps'
| sem_Alt_r r1 r2 pos caps pos' caps' :
    sem r2 pos caps pos' caps' -> sem (Alt r1 r2) pos caps pos' caps'
| sem_Quest_one r pos caps pos' caps' :
    sem r pos caps pos' caps' -> sem (Quest r) pos caps pos' caps'
| sem_Quest_none r pos caps : sem (Quest r) pos caps pos caps
| sem_Star_stop r pos caps : sem (Star r) pos caps pos caps
| sem_Star_more r pos caps pos1 caps1 pos2 caps2 :
    sem r pos caps pos1 caps1 -> pos < pos1 ->
    sem (Star r) pos1 caps1 pos2 caps2 ->
    sem (Star r) pos caps pos2 caps2
| sem_Group n r pos caps pos' caps' :
    sem r pos caps pos' caps' ->
    sem (Group n r) pos caps pos' (<[n := (pos, pos')]> caps').

(** Every byte of [text[a:b]] is in the class [p]. *)
Definition span (p : ascii -> bool) (a b : nat) : Prop :=
  forall i, a <= i < b -> exists c, text !! i = Some c /\ p c = true.

Lemma sem_bounds r pos caps pos' caps' :
  sem r pos caps pos' caps' ->
  pos <= pos' /\ (pos' = pos \/ pos' <= length text).
Proof.
  induction 1; try lia.
  apply lookup_lt_Some in H. lia.
Qed.

Lemma star_sem (r : regex) (step : nat -> captures -> list thread) :
  (forall pos caps t, t ∈ step pos caps <-> sem r pos caps t.1 t.2) ->
  forall fuel pos caps t,
    length text - pos <= fuel ->
    (t ∈ star step fuel pos caps <-> sem (Star r) pos caps t.1 t.2).
Proof.
  intros Hstep fuel. induction fuel as [|fuel IH]; intros pos caps [pos' caps'] Hfuel;
    cbn [star fst snd].
  - rewrite list_elem_of_singleton. split.
    + intros [= -> ->]. constructor.
    + inversion 1; subst; [reflexivity|].
      match goal with H : sem r _ _ _ _ |- _ => apply sem_bounds in H end. lia.
  - rewrite elem_of_app, list_elem_of_bind, list_elem_of_singleton. split.
    + intros [(t1 & Hin & Ht1)|[= -> ->]]; [|constructor].
      destruct (Nat.ltb_spec pos t1.1) as [Hlt|Hge]; [|now apply elem_of_nil in Hin].
      apply IH in Hin; [|lia]. apply Hstep in Ht1.
      eapply sem_Star_more; eauto.
    + inversion 1; subst; [now right|left].
      match goal with
      | H1 : sem r _ _ ?p1 ?c1, H2 : sem (Star r) ?p1 ?c1 _ _ |- _ =>
          exists (p1, c1); split; [|now apply Hstep];
          cbn [fst snd]; destruct (Nat.ltb_spec pos p1); [|lia];
          apply IH; [lia|exact H2]
      end.
Qed.

(** The search and the declarative reading agree. *)
Lemma run_sem (r : regex) :
  forall pos caps t, t ∈ run text r pos caps <-> sem r pos caps t.1 t.2.
Proof.
  induction r as [| | |p|r1 IH1 r2 IH2|r1 IH1 r2 IH2|r IH|r IH|n r IH];
    intros pos caps [pos' caps']; cbn [run fst snd].
  - rewrite list_elem_of_singleton. split; [intros [= -> ->]; constructor|].
    now inversion 1.
  - destruct (Nat.eqb_spec pos 0) as [->|Hne].
    + rewrite list_elem_of_singleton. split; [intros [= -> ->]; constructor|].
      now inversion 1.
    + rewrite elem_of_nil. split; [tauto|]. inversion 1; congruence.
  - destruct (Nat.eqb_spec pos (length text)) as [->|Hne].
    + rewrite list_elem_of_singleton. split; [intros [= -> ->]; constructor|].
      now inversion 1.
    + rewrite elem_of_nil. split; [tauto|]. inversion 1; congruence.
  - destruct (text !! pos) as [c|] eqn:Hc.
    + destruct (p c) eqn:Hp.
      * rewrite list_elem_of_singleton. split.
        -- intros [= -> ->]. econstructor; eauto.
        -- now inversion 1.
      * rewrite elem_of_nil. split; [tauto|]. inversion 1; congruence.
    + rewrite elem_of_nil. split; [tauto|]. inversion 1; congruence.
  - rewrite list_elem_of_bind. split.
    + intros ([pos1 caps1] & H2 & H1). apply IH1 in H1. apply IH2 in H2.
      econstructor; eauto.
    + inversion 1; subst.
      match goal with
      | H1 : sem r1 _ _ ?p1 ?c1 |- _ => exists (p1, c1)
      end.
      split; [now apply IH2|now apply IH1].
  - rewrite elem_of_app, IH1, IH2. split.
    + intros [H|H]; [now apply sem_Alt_l|now apply sem_Alt_r].
    + inversion 1; subst; tauto.
  - rewrite elem_of_app, IH, list_elem_of_singleton. split.
    + intros [H|[= -> ->]]; [now apply sem_Quest_one|apply sem_Quest_none].
    + inversion 1; subst; tauto.
  - apply (star_sem r (run text r) IH). lia.
  - rewrite list_elem_of_fmap. split.
    + intros ([pos1 caps1] & [= -> ->] & Hin). apply IH in Hin.
      now constructor.
    + inversion 1; subst.
      match goal with
      | H1 : sem r _ _ _ ?c1 |- _ => exists (pos', c1)
      end.
      split; [reflexivity|now apply IH].
Qed.

(** *** Submatch indexes *)

Lemma sem_other_group (n : nat) r pos caps pos' caps' :
  sem r pos caps pos' caps' -> has_group n r = false -> caps' !! n = caps !! n.
Proof.
  induction 1 as [| | | |r1 r2 pos caps pos1 caps1 pos2 caps2 _ IH1 _ IH2
                 |r1 r2 pos caps pos' caps' _ IH|r1 r2 pos caps pos' caps' _ IH
                 |r pos caps pos' caps' _ IH| |
                 |r pos caps pos1 caps1 pos2 caps2 _ IH1 _ _ IH2
                 |m r pos caps pos' caps' _ IH];
    cbn [has_group]; intros Hg; try reflexivity.
  - apply orb_false_iff in Hg as [Hg1 Hg2]. now rewrite IH2, IH1.
  - apply orb_false_iff in Hg as [Hg1 Hg2]. auto.
  - apply orb_false_iff in Hg as [Hg1 Hg2]. auto.
  - auto.
  - now rewrite IH2, IH1.
  - apply orb_false_iff in Hg as [Hg1 Hg2]. apply Nat.eqb_neq in Hg1.
    rewrite lookup_insert_ne by exact Hg1. auto.
Qed.

Lemma sem_group_free r pos caps pos' caps' :
  sem r pos caps pos' caps' -> group_free r = true -> caps' = caps.
Proof.
  induction 1 as [| | | |r1 r2 pos caps pos1 caps1 pos2 caps2 _ IH1 _ IH2
                 |r1 r2 pos caps pos' caps' _ IH|r1 r2 pos caps pos' caps' _ IH
                 |r pos caps pos' caps' _ IH| |
                 |r pos caps pos1 caps1 pos2 caps2 _ IH1 _ _ IH2
                 |m r pos caps pos' caps' _ IH];
    cbn [group_free]; intros Hg; try reflexivity.
  - apply andb_true_iff in Hg as [Hg1 Hg2]. now rewrite IH2, IH1.
  - apply andb_true_iff in Hg as [Hg1 Hg2]. auto.
  - apply andb_true_iff in Hg as [Hg1 Hg2]. auto.
  - auto.
  - now rewrite IH2, IH1.
  - discriminate.
Qed.

Lemma sem_Cat_inv r1 r2 pos caps pos2 caps2 :
  sem (Cat r1 r2) pos caps pos2 caps2 ->
  exists pos1 caps1, sem r1 pos caps pos1 caps1 /\ sem r2 pos1 caps1 pos2 caps2.
Proof. inversion 1; subst; eauto. Qed.

Lemma sem_Group_inv n r pos caps pos' caps' :
  sem (Group n r) pos caps pos' caps' ->
  exists caps1, sem r pos caps pos' caps1 /\ caps' = <[n := (pos, pos')]> caps1.
Proof. inversion 1; subst; eauto. Qed.

Lemma sem_Bot_inv pos caps pos' caps' :
  sem Bot pos caps pos' caps' -> pos = 0 /\ pos' = 0 /\ caps' = caps.
Proof. inversion 1; subst; auto. Qed.

Lemma sem_Eot_inv pos caps pos' caps' :
  sem Eot pos caps pos' caps' -> pos = length text /\ pos' = pos /\ caps' = caps.
Proof. inversion 1; subst; auto. Qed.

Lemma sem_Class_inv p pos caps pos' caps' :
  sem (Class p) pos caps pos' caps' ->
  pos' = S pos /\ caps' = caps /\ span p pos pos'.
Proof.
  inversion 1; subst. split; [reflexivity|split; [reflexivity|]].
  intros i Hi. assert (i = pos) as -> by lia. eauto.
Qed.

Lemma span_app p a b c : span p a b -> span p b c -> span p a c.
Proof.
  intros H1 H2 i Hi. destruct (Nat.lt_ge_cases i b); [apply H1|apply H2]; lia.
Qed.

Lemma span_nil p a : span p a a.
Proof. intros i Hi. lia. Qed.

Lemma sem_Star_Class p pos caps pos' caps' :
  sem (Star (Class p)) pos caps pos' caps' ->
  caps' = caps /\ pos <= pos' /\ span p pos pos'.
Proof.
  intros H. remember (Star (Class p)) as r eqn:Hr. revert Hr.
  induction H; intros Hr; try discriminate.
  - split; [reflexivity|split; [lia|apply span_nil]].
  - injection Hr as ->. destruct (sem_Class_inv _ _ _ _ _ H) as (-> & -> & Hs).
    destruct (IHsem2 eq_refl) as (-> & Hle & Hs'). split; [reflexivity|].
    split; [lia|]. eapply span_app; eauto.
Qed.

Lemma sem_Plus_Class p pos caps pos' caps' :
  sem (Plus (Class p)) pos caps pos' caps' ->
  caps' = caps /\ pos < pos' /\ span p pos pos'.
Proof.
  intros H. apply sem_Cat_inv in H as (pos1 & caps1 & H1 & H2).
  destruct (sem_Class_inv _ _ _ _ _ H1) as (-> & -> & Hs).
  destruct (sem_Star_Class _ _ _ _ _ H2) as (-> & Hle & Hs').
  split; [reflexivity|]. split; [lia|]. eapply span_app; eauto.
Qed.

Lemma sem_Repeat_1_3_Class p pos caps pos' caps' :
  sem (Repeat_1_3 (Class p)) pos caps pos' caps' ->
  caps' = caps /\ pos < pos' <= pos + 3 /\ span p pos pos'.
Proof.
  intros H. apply sem_Cat_inv in H as (pos1 & caps1 & H1 & H2).
  destruct (sem_Class_inv _ _ _ _ _ H1) as (-> & -> & Hs1).
  inversion H2; subst; [|split; [reflexivity|split; [lia|exact Hs1]]].
  match goal with H : sem (Cat _ _) _ _ _ _ |- _ =>
    apply sem_Cat_inv in H as (pos2 & caps2 & H3 & H4) end.
  destruct (sem_Class_inv _ _ _ _ _ H3) as (-> & -> & Hs2).
  pose proof (span_app _ _ _ _ Hs1 Hs2) as Hs12.
  inversion H4; subst; [|split; [reflexivity|split; [lia|exact Hs12]]].
  match goal with H : sem (Class _) _ _ _ _ |- _ =>
    destruct (sem_Class_inv _ _ _ _ _ H) as (-> & -> & Hs3) end.
  split; [reflexivity|]. split; [lia|]. eapply span_app; eauto.
Qed.

(** The bytes of a non-empty span, as a slice. *)
Lemma span_slice p a b :
  span p a b -> a < b ->
  length (slice text a b) = b - a /\ forallb p (slice text a b) = true.
Proof.
  intros Hs Hab. unfold slice.
  assert (Hlen : b <= length text).
  { destruct (Hs (b - 1)) as (c & Hc & _); [lia|].
    apply lookup_lt_Some in Hc. lia. }
  split.
  - rewrite length_take, length_drop. lia.
  - apply forallb_forall. intros c Hc. apply list_elem_of_In in Hc.
    apply list_elem_of_lookup in Hc as [i Hi].
    pose proof (lookup_lt_Some _ _ _ Hi) as Hlt.
    rewrite length_take, length_drop in Hlt.
    rewrite lookup_take_lt, lookup_drop in Hi by lia.
    destruct (Hs (a + i)) as (c' & Hc' & Hp); [lia|]. congruence.
Qed.

Lemma leftmost_first_sem r start stop caps :
  leftmost_first text r = Some (start, (stop, caps)) ->
  sem r start ∅ stop caps.
Proof.
  unfold leftmost_first. intros H. apply head_Some_elem_of in H.
  apply list_elem_of_bind in H as (start' & Hin & _).
  apply list_elem_of_fmap in Hin as (t & [= ? ?] & Hin). subst.
  now apply run_sem in Hin.
Qed.

(** A match at the beginning of the text is found: the search reports a
    thread that starts there. *)
Lemma leftmost_first_at_0 r stop caps :
  sem r 0 ∅ stop caps ->
  exists t, leftmost_first text r = Some (0, t).
Proof.
  intros H. apply (run_sem r 0 ∅ (stop, caps)) in H.
  unfold leftmost_first. cbn [seq mbind list_bind app].
  destruct (run text r 0 ∅) as [|t l]; [now apply elem_of_nil in H|].
  exists t. reflexivity.
Qed.

Lemma sem_Eot_at pos caps : length text = pos -> sem Eot pos caps pos caps.
Proof. intros <-. constructor. Qed.

Lemma sem_Cat_rest r rest pos caps stop final :
  sem (Cat r rest) pos caps stop final ->
  exists pos' caps', sem rest pos' caps' stop final.
Proof. intros H. apply sem_Cat_inv in H as (pos' & caps' & _ & H). eauto. Qed.

(** A group of one to three bytes of a class, followed by [rest] that does
    not set the group again. *)
Lemma sem_class_group (n : nat) p rest pos caps stop final :
  sem (Cat (Group n (Repeat_1_3 (Class p))) rest) pos caps stop final ->
  has_group n rest = false ->
  exists b caps',
    pos < b <= pos + 3 /\ span p pos b /\ final !! n = Some (pos, b) /\
    sem rest b caps' stop final.
Proof.
  intros H Hg. apply sem_Cat_inv in H as (b & caps' & HG & Hrest).
  apply sem_Group_inv in HG as (caps1 & HD & ->).
  apply sem_Repeat_1_3_Class in HD as (-> & Hb & Hs).
  exists b, (<[n := (pos, b)]> caps). repeat split; try lia; try assumption.
  rewrite (sem_other_group n _ _ _ _ _ Hrest Hg). apply lookup_insert_eq.
Qed.

Lemma submatch_span p caps n a b :
  caps !! n = Some (a, b) -> a < b -> span p a b ->
  list_ascii_of_string (submatch text caps n) = slice text a b /\
  length (slice text a b) = b - a /\
  forallb p (slice text a b) = true.
Proof.
  intros Hn Hab Hs. unfold submatch. rewrite Hn.
  rewrite list_ascii_of_string_of_list_ascii. split; [reflexivity|].
  now apply span_slice.
Qed.

Lemma sem_Star_Class_intro p caps a b :
  a <= b -> span p a b -> sem (Star (Class p)) a caps b caps.
Proof.
  intros Hab. remember (b - a) as k eqn:Hk. revert a Hab Hk.
  induction k as [|k IH]; intros a Hab Hk Hs.
  - assert (a = b) as -> by lia. constructor.
  - destruct (Hs a) as (c & Hc & Hp); [lia|].
    apply (sem_Star_more (Class p) a caps (S a) caps b caps); [|lia|].
    + econstructor; eauto.
    + apply IH; [lia|lia|]. intros i Hi. apply Hs. lia.
Qed.

End Semantics.

End Regexp.

(** ** Package widget: fields.go and reddit.go *)

Module Widget.

Import Regexp.

(** *** strconv and fmt, as far as the package uses them *)

Inductive strconv_err : Type := ErrSyntax | ErrRange.

Inductive fmt_operand : Type :=
| Verb_s (s : string)
| Verb_d (n : Z).

(** Error values: [errors.New], [fmt.Errorf] with its one operand,
    [*strconv.NumError], and the errors of the YAML decoder. *)
Inductive error : Type :=
| errors_New (text : string)
| fmt_Errorf (format : string) (operand : fmt_operand)
| NumError (func num : string) (err : strconv_err)
| DecodeError (text : string).

Definition all_digits (s : list ascii) : bool := forallb is_digit s.

(** [strconv.ParseUint(s, 10, bitSize)]: no sign, no underscore, at least one
    digit; a value of [2^bitSize] or more is out of range. *)
Definition ParseUint (s : string) (bitSize : Z) : Z + error :=
  let digits := list_ascii_of_string s in
  if Nat.eqb (length digits) 0 || negb (all_digits digits)
  then inr (NumError "ParseUint" s ErrSyntax)
  else if decimal digits <? 2 ^ bitSize then inl (decimal digits)
  else inr (NumError "ParseUint" s ErrRange).

(** [strconv.Atoi(s)] where [int] has 64 bits: an optional sign, at least one
    digit, a value within the range of [int]. *)
Definition Atoi (s : string) : Z + error :=
  let bytes := list_ascii_of_string s in
  let '(negative, digits) :=
    match bytes with
    | sign :: rest =>
        if Ascii.eqb sign "+" then (false, rest)
        else if Ascii.eqb sign "-" then (true, rest)
        else (false, bytes)
    | [] => (false, bytes)
    end in
  if Nat.eqb (length digits) 0 || negb (all_digits digits)
  then inr (NumError "Atoi" s ErrSyntax)
  else
    let n := if negative then - decimal digits else decimal digits in
    if (n <? - 2 ^ 63) || (2 ^ 63 - 1 <? n) then inr (NumError "Atoi" s ErrRange)
    else inl n.

(** Signed 64-bit wrap-around of [int64] arithmetic. *)
Definition wrap64 (x : Z) : Z := (x + 2 ^ 63) mod 2 ^ 64 - 2 ^ 63.

(** [time.Duration] counts nanoseconds in an [int64]. *)
Definition Second : Z := 1000000000.
Definition Minute : Z := 60 * Second.
Definition Hour : Z := 60 * Minute.

(** *** Patterns (lines 15 and 88) *)

Definition digit : regex := Class is_digit.

(** [(?: |,)+] *)
Definition separators : regex := Plus (Alt (Char " ") (Char ",")).

(** [^(?:hsla?\()?(\d{1,3})(?: |,)+(\d{1,3})%?(?: |,)+(\d{1,3})%?\)?$] *)
Definition HSLColorPattern : regex :=
  (Bot
   +++ Quest (Lit (list_ascii_of_string "hsl") +++ Quest (Char "a") +++ Char "(")
   +++ Group 1 (Repeat_1_3 digit)
   +++ separators
   +++ Group 2 (Repeat_1_3 digit)
   +++ Quest (Char "%")
   +++ separators
   +++ Group 3 (Repeat_1_3 digit)
   +++ Quest (Char "%")
   +++ Quest (Char ")")
   +++ Eot)%re.

(** [^(\d+)(s|m|h|d)$] *)
Definition DurationPattern : regex :=
  (Bot
   +++ Group 1 (Plus digit)
   +++ Group 2 (Alt (Char "s") (Alt (Char "m") (Alt (Char "h") (Char "d"))))
   +++ Eot)%re.

Definition HSLHueMax : Z := 360.
Definition HSLSaturationMax : Z := 100.
Definition HSLLightnessMax : Z := 100.

(** [Hue] is a [uint16], [Saturation] and [Lightness] are [uint8]. *)
Record HSLColorField : Type := {
  Hue : Z;
  Saturation : Z;
  Lightness : Z }.

Definition DurationField : Type := Z.

Section Yaml.

(** [*yaml.Node] and [node.Decode(&value)] for a string [value]: the decoded
    string or the decoder's error. *)
Variable yaml_Node : Type.
Variable Decode : yaml_Node -> string + error.

(** Lines 38-86.  The receiver is passed in and returned. *)
Definition HSLColorField_UnmarshalYAML (c : HSLColorField) (node : yaml_Node)
    : HSLColorField * option error :=
  match Decode node with
  | inr err => (c, Some err)
  | inl value =>
      match FindStringSubmatch HSLColorPattern value with
      | [_; m1; m2; m3] =>
          match ParseUint m1 16 with
          | inr err => (c, Some err)
          | inl hue =>
              if HSLHueMax <? hue
              then (c, Some (fmt_Errorf "HSL hue must be between 0 and %d"
                               (Verb_d HSLHueMax)))
              else
                match ParseUint m2 8 with
                | inr err => (c, Some err)
                | inl saturation =>
                    if HSLSaturationMax <? saturation
                    then (c, Some (fmt_Errorf "HSL saturation must be between 0 and %d"
                                     (Verb_d HSLSaturationMax)))
                    else
                      match ParseUint m3 8 with
                      | inr err => (c, Some err)
                      | inl lightness =>
                          if HSLLightnessMax <? lightness
                          then (c, Some (fmt_Errorf
                                           "HSL lightness must be between 0 and %d"
                                           (Verb_d HSLLightnessMax)))
                          else
                            ({| Hue := hue mod 2 ^ 16;
                                Saturation := saturation mod 2 ^ 8;
                                Lightness := lightness mod 2 ^ 8 |}, None)
                      end
                end
          end
      | _ => (c, Some (fmt_Errorf "invalid HSL color format: %s" (Verb_s value)))
      end
  end.

(** Lines 92-123.  The switch has no default: any other unit would leave the
    field as it is and still return nil. *)
Definition DurationField_UnmarshalYAML (d : DurationField) (node : yaml_Node)
    : DurationField * option error :=
  match Decode node with
  | inr err => (d, Some err)
  | inl value =>
      match FindStringSubmatch DurationPattern value with
      | [_; m1; m2] =>
          match Atoi m1 with
          | inr err => (d, Some err)
          | inl duration =>
              if String.eqb m2 "s" then (wrap64 (duration * Second), None)
              else if String.eqb m2 "m" then (wrap64 (duration * Minute), None)
              else if String.eqb m2 "h" then (wrap64 (duration * Hour), None)
              else if String.eqb m2 "d"
              then (wrap64 (wrap64 (duration * 24) * Hour), None)
              else (d, None)
          end
      | _ => (d, Some (fmt_Errorf "invalid duration format: %s" (Verb_s value)))
      end
  end.

(** *** Vocabulary of the claims *)

(** The number a submatch denotes. *)
Definition number (s : string) : Z := decimal (list_ascii_of_string s).

Definition is_unit (u : ascii) : bool :=
  Ascii.eqb u "s" || Ascii.eqb u "m" || Ascii.eqb u "h" || Ascii.eqb u "d".

(** Nanoseconds in one second, minute, hour or 24-hour day. *)
Definition unit_nanoseconds (u : ascii) : Z :=
  if Ascii.eqb u "s" then Second
  else if Ascii.eqb u "m" then Minute
  else if Ascii.eqb u "h" then Hour
  else 24 * Hour.

(** *** Numbers *)

Lemma is_digit_value (c : ascii) : is_digit c = true -> 0 <= digit_value c <= 9.
Proof.
  unfold is_digit, digit_value. rewrite andb_true_iff, !N.leb_le. lia.
Qed.

Lemma decimal_from_nonneg (digits : list ascii) (acc : Z) :
  all_digits digits = true -> 0 <= acc ->
  0 <= foldl (fun acc c => 10 * acc + digit_value c) acc digits.
Proof.
  revert acc. induction digits as [|c digits IH]; intros acc Hd Hacc; [exact Hacc|].
  cbn [all_digits forallb] in Hd. apply andb_true_iff in Hd as [Hc Hd].
  cbn [foldl]. apply IH; [exact Hd|]. apply is_digit_value in Hc. lia.
Qed.

Lemma decimal_nonneg (digits : list ascii) :
  all_digits digits = true -> 0 <= decimal digits.
Proof. intros H. now apply decimal_from_nonneg. Qed.

Lemma ParseUint_digits (s : string) (bitSize : Z) :
  length (list_ascii_of_string s) <> 0%nat ->
  all_digits (list_ascii_of_string s) = true ->
  ParseUint s bitSize =
    if number s <? 2 ^ bitSize then inl (number s)
    else inr (NumError "ParseUint" s ErrRange).
Proof.
  intros Hlen Hd. unfold ParseUint, number. rewrite Hd.
  now replace (Nat.eqb (length (list_ascii_of_string s)) 0) with false
    by (symmetry; now apply Nat.eqb_neq).
Qed.

Lemma ParseUint_inl (s : string) (bitSize n : Z) :
  ParseUint s bitSize = inl n -> n = number s /\ 0 <= n < 2 ^ bitSize.
Proof.
  unfold ParseUint, number.
  destruct (Nat.eqb (length (list_ascii_of_string s)) 0); [discriminate|].
  destruct (all_digits (list_ascii_of_string s)) eqn:Hd; [|discriminate].
  cbn [negb orb].
  destruct (Z.ltb_spec (decimal (list_ascii_of_string s)) (2 ^ bitSize));
    [|discriminate].
  intros [= <-]. split; [reflexivity|]. split; [now apply decimal_nonneg|assumption].
Qed.

Lemma digit_is_no_sign (c : ascii) :
  is_digit c = true -> Ascii.eqb c "+" = false /\ Ascii.eqb c "-" = false.
Proof.
  intros H. split.
  - destruct (Ascii.eqb_spec c "+") as [->|]; [discriminate|reflexivity].
  - destruct (Ascii.eqb_spec c "-") as [->|]; [discriminate|reflexivity].
Qed.

Lemma Atoi_digits (digits : list ascii) :
  digits <> [] -> all_digits digits = true ->
  Atoi (string_of_list_ascii digits) =
    if 2 ^ 63 - 1 <? decimal digits
    then inr (NumError "Atoi" (string_of_list_ascii digits) ErrRange)
    else inl (decimal digits).
Proof.
  intros Hne Hd. unfold Atoi. rewrite list_ascii_of_string_of_list_ascii.
  destruct digits as [|c rest]; [congruence|].
  pose proof Hd as Hd'. cbn [all_digits forallb] in Hd'.
  apply andb_true_iff in Hd' as [Hc _].
  destruct (digit_is_no_sign c Hc) as [-> ->]. rewrite Hd.
  cbn [length Nat.eqb negb orb].
  pose proof (decimal_nonneg _ Hd) as Hpos.
  replace (decimal (c :: rest) <? - 2 ^ 63) with false
    by (symmetry; apply Z.ltb_ge; lia).
  reflexivity.
Qed.

Lemma wrap64_small (x : Z) : - 2 ^ 63 <= x < 2 ^ 63 -> wrap64 x = x.
Proof. intros H. unfold wrap64. rewrite Z.mod_small; lia. Qed.

Lemma wrap64_mul_l (a b : Z) : wrap64 (wrap64 a * b) = wrap64 (a * b).
Proof.
  unfold wrap64. f_equal.
  rewrite (Z.mod_eq (a + 2 ^ 63) (2 ^ 64)) by lia.
  replace ((a + 2 ^ 63 - 2 ^ 64 * ((a + 2 ^ 63) / 2 ^ 64) - 2 ^ 63) * b + 2 ^ 63)
    with (a * b + 2 ^ 63 + (- ((a + 2 ^ 63) / 2 ^ 64) * b) * 2 ^ 64) by ring.
  apply Z_mod_plus_full.
Qed.

(** *** The HSL pattern *)

(** Every group of a match of the HSL pattern is a non-empty string of
    digits. *)
Lemma HSLColorPattern_groups (value whole h s l : string) :
  FindStringSubmatch HSLColorPattern value = [whole; h; s; l] ->
  (length (list_ascii_of_string h) <> 0%nat /\
   all_digits (list_ascii_of_string h) = true) /\
  (length (list_ascii_of_string s) <> 0%nat /\
   all_digits (list_ascii_of_string s) = true) /\
  (length (list_ascii_of_string l) <> 0%nat /\
   all_digits (list_ascii_of_string l) = true).
Proof.
  unfold FindStringSubmatch. set (text := list_ascii_of_string value).
  destruct (leftmost_first text HSLColorPattern) as [[start [stop caps]]|] eqn:E;
    [|discriminate].
  change (NumSubexp HSLColorPattern) with 3%nat. cbn [seq fmap list_fmap].
  intros [= _ <- <- <-]. apply leftmost_first_sem in E.
  unfold HSLColorPattern in E.
  apply sem_Cat_rest in E as (p1 & c1 & E).
  apply sem_Cat_rest in E as (p2 & c2 & E).
  apply sem_class_group in E as (b1 & c3 & Hb1 & Hs1 & Hc1 & E); [|reflexivity].
  apply sem_Cat_rest in E as (p4 & c4 & E).
  apply sem_class_group in E as (b2 & c5 & Hb2 & Hs2 & Hc2 & E); [|reflexivity].
  apply sem_Cat_rest in E as (p6 & c6 & E).
  apply sem_Cat_rest in E as (p7 & c7 & E).
  apply sem_class_group in E as (b3 & c8 & Hb3 & Hs3 & Hc3 & E); [|reflexivity].
  destruct (submatch_span text is_digit caps 1 _ _ Hc1 ltac:(lia) Hs1) as (-> & L1 & D1).
  destruct (submatch_span text is_digit caps 2 _ _ Hc2 ltac:(lia) Hs2) as (-> & L2 & D2).
  destruct (submatch_span text is_digit caps 3 _ _ Hc3 ltac:(lia) Hs3) as (-> & L3 & D3).
  unfold all_digits. repeat split; try assumption; lia.
Qed.

(** C8.  HSLColorField.UnmarshalYAML succeeds exactly when the node decodes
    to a string that the HSL pattern matches and whose three submatches denote
    numbers with hue <= 360, saturation <= 100 and lightness <= 100; on
    success the three fields are those numbers, and on any failure the field
    keeps its previous components. *)
Theorem HSLColorField_UnmarshalYAML_spec (c : HSLColorField) (node : yaml_Node) :
  (forall c' : HSLColorField,
     HSLColorField_UnmarshalYAML c node = (c', None) <->
     exists value whole h s l : string,
       Decode node = inl value /\
       FindStringSubmatch HSLColorPattern value = [whole; h; s; l] /\
       number h <= HSLHueMax /\
       number s <= HSLSaturationMax /\
       number l <= HSLLightnessMax /\
       c' = {| Hue := number h; Saturation := number s; Lightness := number l |}) /\
  (forall (c' : HSLColorField) (err : error),
     HSLColorField_UnmarshalYAML c node = (c', Some err) -> c' = c).
Proof.
  unfold HSLColorField_UnmarshalYAML, HSLHueMax, HSLSaturationMax, HSLLightnessMax.
  split.
  - intros c'. split.
    + destruct (Decode node) as [value|e]; [|discriminate].
      destruct (FindStringSubmatch HSLColorPattern value)
        as [|whole [|h [|s [|l [|x rest]]]]] eqn:HM; try discriminate.
      destruct (ParseUint h 16) as [hue|e] eqn:P1; [|discriminate].
      destruct (Z.ltb_spec 360 hue) as [|Hh]; [discriminate|].
      destruct (ParseUint s 8) as [saturation|e] eqn:P2; [|discriminate].
      destruct (Z.ltb_spec 100 saturation) as [|Hs]; [discriminate|].
      destruct (ParseUint l 8) as [lightness|e] eqn:P3; [|discriminate].
      destruct (Z.ltb_spec 100 lightness) as [|Hl]; [discriminate|].
      intros [= <-].
      apply ParseUint_inl in P1 as [-> B1], P2 as [-> B2], P3 as [-> B3].
      exists value, whole, h, s, l. repeat split; try assumption.
      rewrite !Z.mod_small by lia. reflexivity.
    + intros (value & whole & h & s & l & HD & HM & Hh & Hs & Hl & ->).
      rewrite HD, HM.
      destruct (HSLColorPattern_groups _ _ _ _ _ HM)
        as ((Lh & Dh) & (Ls & Ds) & (Ll & Dl)).
      pose proof (decimal_nonneg _ Dh). pose proof (decimal_nonneg _ Ds).
      pose proof (decimal_nonneg _ Dl). fold (number h) (number s) (number l) in *.
      rewrite !ParseUint_digits by assumption.
      replace (number h <? 2 ^ 16) with true by (symmetry; apply Z.ltb_lt; lia).
      replace (360 <? number h) with false by (symmetry; apply Z.ltb_ge; lia).
      replace (number s <? 2 ^ 8) with true by (symmetry; apply Z.ltb_lt; lia).
      replace (100 <? number s) with false by (symmetry; apply Z.ltb_ge; lia).
      replace (number l <? 2 ^ 8) with true by (symmetry; apply Z.ltb_lt; lia).
      replace (100 <? number l) with false by (symmetry; apply Z.ltb_ge; lia).
      rewrite !Z.mod_small by lia. reflexivity.
  - intros c' err.
    destruct (Decode node) as [value|e]; [|now intros [= <- _]].
    destruct (FindStringSubmatch HSLColorPattern value)
      as [|whole [|h [|s [|l [|x rest]]]]]; try (now intros [= <- _]).
    destruct (ParseUint h 16) as [hue|e]; [|now intros [= <- _]].
    destruct (360 <? hue); [now intros [= <- _]|].
    destruct (ParseUint s 8) as [saturation|e]; [|now intros [= <- _]].
    destruct (100 <? saturation); [now intros [= <- _]|].
    destruct (ParseUint l 8) as [lightness|e]; [|now intros [= <- _]].
    destruct (100 <? lightness); [now intros [= <- _]|discriminate].
Qed.

(** *** The duration pattern *)

Lemma is_unit_eqb (u : ascii) :
  is_unit u = true -> u = "s"%char \/ u = "m"%char \/ u = "h"%char \/ u = "d"%char.
Proof.
  unfold is_unit. rewrite !orb_true_iff, !Ascii.eqb_eq. tauto.
Qed.

(** What a match of the duration pattern looks like: digits, then one unit
    letter that ends the text. *)
Lemma DurationPattern_sem (text : list ascii) (start stop : nat)
    (caps : gmap nat (nat * nat)) :
  sem text DurationPattern start ∅ stop caps ->
  exists (digits : list ascii) (u : ascii),
    text = digits ++ [u] /\ digits <> [] /\ all_digits digits = true /\
    is_unit u = true /\
    start = 0%nat /\ stop = length text /\
    caps !! 1%nat = Some (0%nat, length digits) /\
    caps !! 2%nat = Some (length digits, length text).
Proof.
  unfold DurationPattern. intros E.
  apply sem_Cat_inv in E as (p1 & c1 & HB & E).
  apply sem_Bot_inv in HB as (-> & -> & ->).
  apply sem_Cat_inv in E as (p2 & c2 & HG1 & E).
  apply sem_Group_inv in HG1 as (c1 & HD & ->).
  apply sem_Plus_Class in HD as (-> & Hp2 & Hs).
  apply sem_Cat_inv in E as (p3 & c3 & HG2 & E).
  apply sem_Eot_inv in E as (-> & -> & ->).
  apply sem_Group_inv in HG2 as (c2 & HU & ->).
  assert (HU' : c2 = <[1%nat := (0%nat, p2)]> ∅ /\ length text = S p2 /\
                exists u, text !! p2 = Some u /\ is_unit u = true).
  { unfold is_unit.
    inversion HU as [| | | | |? ? ? ? ? ? HA|? ? ? ? ? ? HA| | | | |]; subst.
    - apply sem_Class_inv in HA as (E1 & -> & HsU). rewrite E1.
      destruct (HsU p2 ltac:(lia)) as (u & Hu & Hc). apply Ascii.eqb_eq in Hc.
      subst u. eauto 10.
    - inversion HA as [| | | | |? ? ? ? ? ? HA'|? ? ? ? ? ? HA'| | | | |]; subst.
      + apply sem_Class_inv in HA' as (E1 & -> & HsU). rewrite E1.
        destruct (HsU p2 ltac:(lia)) as (u & Hu & Hc). apply Ascii.eqb_eq in Hc.
        subst u. eauto 10.
      + inversion HA' as [| | | | |? ? ? ? ? ? HA''|? ? ? ? ? ? HA''| | | | |];
          subst; apply sem_Class_inv in HA'' as (E1 & -> & HsU); rewrite E1;
          destruct (HsU p2 ltac:(lia)) as (u & Hu & Hc);
          apply Ascii.eqb_eq in Hc; subst u; eauto 10. }
  destruct HU' as (-> & Hlen & u & Hu & Hunit).
  assert (Htext : text = take p2 text ++ [u]).
  { rewrite <- (take_drop p2 text) at 1. f_equal.
    rewrite (drop_S _ _ _ Hu). rewrite drop_ge by lia. reflexivity. }
  assert (Hlt : length (take p2 text) = p2) by (rewrite length_take; lia).
  exists (take p2 text), u. rewrite Hlt.
  split; [exact Htext|]. split.
  { intros E0. rewrite E0 in Hlt. cbn in Hlt. lia. }
  split.
  { destruct (span_slice text is_digit 0 p2 Hs ltac:(lia)) as [_ Hd].
    unfold slice in Hd. now rewrite Nat.sub_0_r in Hd. }
  split; [exact Hunit|]. split; [reflexivity|]. split; [reflexivity|]. split.
  - rewrite lookup_insert_ne by lia. apply lookup_insert_eq.
  - rewrite Hlen. apply lookup_insert_eq.
Qed.

(** A text of that shape is matched. *)
Lemma DurationPattern_matches (digits : list ascii) (u : ascii) :
  digits <> [] -> all_digits digits = true -> is_unit u = true ->
  exists caps, sem (digits ++ [u]) DurationPattern 0 ∅ (length (digits ++ [u])) caps.
Proof.
  intros Hne Hd Hu. set (text := digits ++ [u]).
  assert (Hs : span text is_digit 0 (length digits)).
  { intros i Hi. unfold all_digits in Hd. rewrite forallb_forall in Hd.
    destruct (lookup_lt_is_Some_2 digits i) as [c Hc]; [lia|].
    exists c. split; [unfold text; now rewrite lookup_app_l by lia|].
    apply Hd. apply list_elem_of_In. eapply list_elem_of_lookup_2; eauto. }
  assert (Hpos : (0 < length digits)%nat) by (destruct digits; [congruence|cbn; lia]).
  assert (Hu' : text !! length digits = Some u).
  { unfold text. rewrite lookup_app_r by lia. now rewrite Nat.sub_diag. }
  assert (Hlen : length text = S (length digits)).
  { unfold text. rewrite length_app. cbn. lia. }
  eexists. unfold DurationPattern.
  eapply sem_Cat; [apply sem_Bot|].
  eapply sem_Cat.
  { apply sem_Group. unfold Plus.
    destruct (Hs 0%nat ltac:(lia)) as (c & Hc & Hp).
    eapply sem_Cat; [eapply sem_Class; eauto|].
    apply (sem_Star_Class_intro text is_digit _ 1%nat (length digits)); [lia|].
    intros i Hi. apply Hs. lia. }
  eapply sem_Cat.
  { apply sem_Group.
    apply is_unit_eqb in Hu as [-> | [-> | [-> | ->]]].
    - apply sem_Alt_l. eapply sem_Class; [exact Hu'|reflexivity].
    - apply sem_Alt_r, sem_Alt_l. eapply sem_Class; [exact Hu'|reflexivity].
    - apply sem_Alt_r, sem_Alt_r, sem_Alt_l. eapply sem_Class; [exact Hu'|reflexivity].
    - apply sem_Alt_r, sem_Alt_r, sem_Alt_r. eapply sem_Class; [exact Hu'|reflexivity]. }
  rewrite Hlen. apply sem_Eot_at. exact Hlen.
Qed.

Lemma DurationPattern_submatches_inv (value : string) (m : list string) :
  FindStringSubmatch DurationPattern value = m -> m <> [] ->
  exists (digits : list ascii) (u : ascii),
    list_ascii_of_string value = digits ++ [u] /\ digits <> [] /\
    all_digits digits = true /\ is_unit u = true /\
    m = [value; string_of_list_ascii digits; string_of_list_ascii [u]].
Proof.
  unfold FindStringSubmatch.
  destruct (leftmost_first (list_ascii_of_string value) DurationPattern)
    as [[start [stop caps]]|] eqn:E; [|congruence].
  intros <- _. apply leftmost_first_sem in E.
  apply DurationPattern_sem in E
    as (digits & u & Htext & Hne & Hd & Hu & -> & -> & H1 & H2).
  exists digits, u. repeat (split; [assumption|]).
  change (NumSubexp DurationPattern) with 2%nat. cbn [seq fmap list_fmap].
  unfold submatch. rewrite H1, H2. unfold slice.
  rewrite !Nat.sub_0_r, !drop_0, take_ge by lia.
  rewrite string_of_list_ascii_of_string.
  rewrite Htext, take_app_length, drop_app_length, length_app.
  cbn [length]. replace (length digits + 1 - length digits)%nat with 1%nat by lia.
  reflexivity.
Qed.

Lemma DurationPattern_submatches (value : string) (digits : list ascii) (u : ascii) :
  list_ascii_of_string value = digits ++ [u] -> digits <> [] ->
  all_digits digits = true -> is_unit u = true ->
  FindStringSubmatch DurationPattern value =
    [value; string_of_list_ascii digits; string_of_list_ascii [u]].
Proof.
  intros Htext Hne Hd Hu.
  destruct (DurationPattern_matches digits u Hne Hd Hu) as [caps Hsem].
  rewrite <- Htext in Hsem. apply leftmost_first_at_0 in Hsem as [[stop caps'] Ht].
  destruct (DurationPattern_submatches_inv value _ eq_refl)
    as (digits' & u' & Htext' & _ & _ & _ & ->).
  { unfold FindStringSubmatch. now rewrite Ht. }
  rewrite Htext in Htext'. apply app_inj_tail in Htext' as [<- <-]. reflexivity.
Qed.

Lemma unit_nanoseconds_pos (u : ascii) : 0 < unit_nanoseconds u.
Proof.
  unfold unit_nanoseconds, Hour, Minute, Second.
  repeat destruct (Ascii.eqb _ _); lia.
Qed.

(** The switch of lines 111-120 on a unit letter. *)
Lemma unit_switch (d duration : Z) (u : ascii) :
  is_unit u = true ->
  (if String.eqb (string_of_list_ascii [u]) "s" then (wrap64 (duration * Second), None)
   else if String.eqb (string_of_list_ascii [u]) "m"
   then (wrap64 (duration * Minute), None)
   else if String.eqb (string_of_list_ascii [u]) "h"
   then (wrap64 (duration * Hour), None)
   else if String.eqb (string_of_list_ascii [u]) "d"
   then (wrap64 (wrap64 (duration * 24) * Hour), None)
   else (d, None))
  = (wrap64 (duration * unit_nanoseconds u), @None error).
Proof.
  intros Hu. apply is_unit_eqb in Hu as [-> | [-> | [-> | ->]]]; cbn; try reflexivity.
  rewrite wrap64_mul_l. do 2 f_equal. unfold unit_nanoseconds. cbn. ring.
Qed.

Lemma DurationField_error_keeps (d d' : DurationField) (node : yaml_Node)
    (err : error) :
  DurationField_UnmarshalYAML d node = (d', Some err) -> d' = d.
Proof.
  unfold DurationField_UnmarshalYAML.
  destruct (Decode node) as [value|e]; [|now intros [= <- _]].
  destruct (FindStringSubmatch DurationPattern value) as [|whole m] eqn:HM;
    [now intros [= <- _]|].
  destruct (DurationPattern_submatches_inv value _ HM ltac:(discriminate))
    as (digits & u & Htext & Hne & Hd & Hu & [= -> ->]).
  destruct (Atoi (string_of_list_ascii digits)) as [duration|e];
    [|now intros [= <- _]].
  pose proof (unit_switch d duration u Hu) as Hsw.
  unfold DurationField in *. cbn [string_of_list_ascii] in *. rewrite Hsw.
  discriminate.
Qed.

(** C9 (amended).  DurationField.UnmarshalYAML accepts exactly the strings made
    of one or more decimal digits that denote a number of at most 2^63 - 1,
    followed by one unit letter s, m, h or d; it sets the field to that number
    times the unit's nanoseconds in 64-bit arithmetic, which is that many
    seconds, minutes, hours or 24-hour days whenever the product is below
    2^63; every other node yields an error and leaves the field unchanged. *)
Theorem DurationField_UnmarshalYAML_spec (d : DurationField) (node : yaml_Node) :
  (forall d' : DurationField,
     DurationField_UnmarshalYAML d node = (d', None) <->
     exists (value : string) (digits : list ascii) (u : ascii),
       Decode node = inl value /\
       list_ascii_of_string value = digits ++ [u] /\
       digits <> [] /\ all_digits digits = true /\ is_unit u = true /\
       decimal digits <= 2 ^ 63 - 1 /\
       d' = wrap64 (decimal digits * unit_nanoseconds u)) /\
  (forall (digits : list ascii) (u : ascii),
     all_digits digits = true ->
     decimal digits * unit_nanoseconds u < 2 ^ 63 ->
     wrap64 (decimal digits * unit_nanoseconds u)
     = decimal digits * unit_nanoseconds u) /\
  ((forall d' : DurationField, DurationField_UnmarshalYAML d node <> (d', None)) ->
   exists err : error, DurationField_UnmarshalYAML d node = (d, Some err)).
Proof.
  split; [|split].
  - intros d'. unfold DurationField_UnmarshalYAML. split.
    + destruct (Decode node) as [value|e]; [|discriminate].
      destruct (FindStringSubmatch DurationPattern value) as [|whole m] eqn:HM;
        [discriminate|].
      destruct (DurationPattern_submatches_inv value _ HM ltac:(discriminate))
        as (digits & u & Htext & Hne & Hd & Hu & [= -> ->]).
      rewrite (Atoi_digits digits Hne Hd).
      destruct (Z.ltb_spec (2 ^ 63 - 1) (decimal digits)) as [|Hmax]; [discriminate|].
      pose proof (unit_switch d (decimal digits) u Hu) as Hsw.
      unfold DurationField in *. cbn [string_of_list_ascii] in *. rewrite Hsw.
      intros [= <-].
      exists value, digits, u. repeat split; assumption.
    + intros (value & digits & u & HD & Htext & Hne & Hd & Hu & Hmax & ->).
      rewrite HD, (DurationPattern_submatches value digits u Htext Hne Hd Hu).
      rewrite (Atoi_digits digits Hne Hd).
      replace (2 ^ 63 - 1 <? decimal digits) with false
        by (symmetry; apply Z.ltb_ge; lia).
      pose proof (unit_switch d (decimal digits) u Hu) as Hsw.
      unfold DurationField in *. cbn [string_of_list_ascii] in *. exact Hsw.
  - intros digits u Hd Hlt. apply wrap64_small.
    pose proof (decimal_nonneg digits Hd). pose proof (unit_nanoseconds_pos u). nia.
  - intros Hno.
    destruct (DurationField_UnmarshalYAML d node) as [d' [err|]] eqn:E.
    + exists err. now rewrite (DurationField_error_keeps d d' node err E).
    + now destruct (Hno d').
Qed.

End Yaml.

(** A decoder for scalar nodes that are their own text. *)
Definition decode_scalar (node : string + error) : string + error := node.

(** The two fields on scalar nodes. *)
Lemma HSLColorField_examples :
  HSLColorField_UnmarshalYAML (string + error) decode_scalar
    {| Hue := 1; Saturation := 2; Lightness := 3 |} (inl "hsl(240, 50%, 100%)")
    = ({| Hue := 240; Saturation := 50; Lightness := 100 |}, None) /\
  HSLColorField_UnmarshalYAML (string + error) decode_scalar
    {| Hue := 1; Saturation := 2; Lightness := 3 |} (inl "240 50 100")
    = ({| Hue := 240; Saturation := 50; Lightness := 100 |}, None) /\
  HSLColorField_UnmarshalYAML (string + error) decode_scalar
    {| Hue := 1; Saturation := 2; Lightness := 3 |} (inl "hsl(361, 50%, 100%)")
    = ({| Hue := 1; Saturation := 2; Lightness := 3 |},
       Some (fmt_Errorf "HSL hue must be between 0 and %d" (Verb_d 360))) /\
  HSLColorField_UnmarshalYAML (string + error) decode_scalar
    {| Hue := 1; Saturation := 2; Lightness := 3 |} (inl "hsl(240, 500%, 100%)")
    = ({| Hue := 1; Saturation := 2; Lightness := 3 |},
       Some (NumError "ParseUint" "500" ErrRange)) /\
  HSLColorField_UnmarshalYAML (string + error) decode_scalar
    {| Hue := 1; Saturation := 2; Lightness := 3 |} (inl "blue")
    = ({| Hue := 1; Saturation := 2; Lightness := 3 |},
       Some (fmt_Errorf "invalid HSL color format: %s" (Verb_s "blue"))).
Proof. repeat split; vm_compute; reflexivity. Qed.

Lemma DurationField_examples :
  DurationField_UnmarshalYAML (string + error) decode_scalar 7 (inl "30m")
    = (30 * Minute, None) /\
  DurationField_UnmarshalYAML (string + error) decode_scalar 7 (inl "2d")
    = (2 * (24 * Hour), None) /\
  DurationField_UnmarshalYAML (string + error) decode_scalar 7 (inl "30 m")
    = (7, Some (fmt_Errorf "invalid duration format: %s" (Verb_s "30 m"))).
Proof. repeat split; vm_compute; reflexivity. Qed.

(** The duration pattern takes "0s", lets 10^10 seconds wrap around to a
    negative duration, and refuses twenty nines although they are digits and
    a unit. *)
Lemma duration_zero_overflow_range :
  DurationField_UnmarshalYAML (string + error) decode_scalar 7 (inl "0s")
    = (0, None) /\
  DurationField_UnmarshalYAML (string + error) decode_scalar 7 (inl "10000000000s")
    = (-8446744073709551616, None) /\
  10000000000 * Second = 10000000000000000000 /\
  DurationField_UnmarshalYAML (string + error) decode_scalar 7
    (inl "99999999999999999999s")
    = (7, Some (NumError "Atoi" "99999999999999999999" ErrRange)).
Proof. repeat split; vm_compute; reflexivity. Qed.

(** *** reddit.go *)

Section RedditWidget.

(** The embedded [widgetBase] with its two setters, and [feed.ForumPosts],
    are declared in other files. *)
Variable widgetBase : Type.
Variable withTitle : string -> widgetBase -> widgetBase.
Variable withCacheDuration : Z -> widgetBase -> widgetBase.
Variable ForumPosts : Type.

Record Reddit : Type := {
  base : widgetBase;
  Posts : ForumPosts;
  Subreddit : string;
  Style : string;
  ShowThumbnails : bool;
  CommentsUrlTemplate : string;
  Limit : Z;
  CollapseAfter : Z }.

(** Lines 24-40.  The receiver is passed in and returned. *)
Definition Initialize (widget : Reddit) : Reddit * option error :=
  if String.eqb (Subreddit widget) ""
  then (widget, Some (errors_New "no subreddit specified"))
  else
    let limit := if Limit widget <=? 0 then 15 else Limit widget in
    let collapseAfter :=
      if (CollapseAfter widget =? 0) || (CollapseAfter widget <? -1)
      then 5 else CollapseAfter widget in
    ({| base := withCacheDuration (30 * Minute)
                  (withTitle ("/r/" +:+ Subreddit widget) (base widget));
        Posts := Posts widget;
        Subreddit := Subreddit widget;
        Style := Style widget;
        ShowThumbnails := ShowThumbnails widget;
        CommentsUrlTemplate := CommentsUrlTemplate widget;
        Limit := limit;
        CollapseAfter := collapseAfter |}, None).

(** C10.  Reddit.Initialize returns an error exactly when Subreddit is the
    empty string, and then leaves the widget as it is.  When it succeeds, the
    widget has Limit >= 1 and CollapseAfter equal to -1 or at least 1: a Limit
    <= 0 has become 15 and a CollapseAfter that is 0 or below -1 has become 5,
    any other value is kept; Posts, Subreddit, Style, ShowThumbnails and
    CommentsUrlTemplate are unchanged, and the embedded base has been passed
    through withTitle and withCacheDuration. *)
Theorem Initialize_spec (widget : Reddit) :
  ((Initialize widget).2 <> None <-> Subreddit widget = "") /\
  ((Initialize widget).2 <> None -> (Initialize widget).1 = widget) /\
  ((Initialize widget).2 = None ->
   1 <= Limit (Initialize widget).1 /\
   (CollapseAfter (Initialize widget).1 = -1 \/
    1 <= CollapseAfter (Initialize widget).1) /\
   Limit (Initialize widget).1
     = (if Limit widget <=? 0 then 15 else Limit widget) /\
   CollapseAfter (Initialize widget).1
     = (if (CollapseAfter widget =? 0) || (CollapseAfter widget <? -1)
        then 5 else CollapseAfter widget) /\
   Posts (Initialize widget).1 = Posts widget /\
   Subreddit (Initialize widget).1 = Subreddit widget /\
   Style (Initialize widget).1 = Style widget /\
   ShowThumbnails (Initialize widget).1 = ShowThumbnails widget /\
   CommentsUrlTemplate (Initialize widget).1 = CommentsUrlTemplate widget /\
   base (Initialize widget).1
     = withCacheDuration (30 * Minute)
         (withTitle ("/r/" +:+ Subreddit widget) (base widget))).
Proof.
  unfold Initialize.
  destruct (String.eqb_spec (Subreddit widget) "") as [He|Hne]; cbn [fst snd].
  - split; [split; [intros _; exact He|discriminate]|].
    split; [reflexivity|discriminate].
  - split; [split; [congruence|intros He; congruence]|].
    split; [congruence|]. intros _.
    destruct (Z.leb_spec (Limit widget) 0), (Z.eqb_spec (CollapseAfter widget) 0),
      (Z.ltb_spec (CollapseAfter widget) (-1));
      cbn [orb Limit CollapseAfter Posts Subreddit Style ShowThumbnails
           CommentsUrlTemplate base];
      repeat split; lia.
Qed.

End RedditWidget.

(** *** Package strings, as far as CustomIcon needs it *)

(** [strings.HasPrefix(s, prefix)]. *)
Fixpoint HasPrefix (s prefix : string) : bool :=
  match prefix, s with
  | EmptyString, _ => true
  | String p prefix', String c s' => Ascii.eqb p c && HasPrefix s' prefix'
  | String _ _, EmptyString => false
  end.

(** [strings.Index(s, sep)]: the index of the first instance of [sep] in [s];
    [None] stands for -1. *)
Fixpoint Index (s sep : string) : option nat :=
  if HasPrefix s sep then Some 0%nat
  else
    match s with
    | EmptyString => None
    | String _ s' => S <$> Index s' sep
    end.

(** [s[:n]] and [s[n:]] for [n <= len(s)]. *)
Fixpoint str_take (n : nat) (s : string) : string :=
  match n, s with
  | S n', String c s' => String c (str_take n' s')
  | _, _ => EmptyString
  end.

Fixpoint str_drop (n : nat) (s : string) : string :=
  match n, s with
  | S n', String _ s' => str_drop n' s'
  | _, _ => s
  end.

(** [strings.Cut(s, sep)]. *)
Definition Cut (s sep : string) : string * string * bool :=
  match Index s sep with
  | Some i => (str_take i s, str_drop (i + String.length sep) s, true)
  | None => (s, "", false)
  end.

(** The byte [c] occurs in [s]. *)
Fixpoint has_byte (c : ascii) (s : string) : bool :=
  match s with
  | EmptyString => false
  | String c' s' => Ascii.eqb c c' || has_byte c s'
  end.

(** *** CustomIcon (lines 180-225) *)

Record CustomIcon : Type := {
  URL : string;
  IsFlatIcon : bool }.

Definition simple_icons_url : string :=
  "https://cdn.jsdelivr.net/npm/simple-icons@latest/icons/".

Definition dashboard_icons_url : string :=
  "https://cdn.jsdelivr.net/gh/walkxcode/dashboard-icons@master/".

Section Icons.

Variable yaml_Node : Type.
Variable Decode : yaml_Node -> string + error.

(** Lines 188-225.  The receiver is passed in and returned. *)
Definition CustomIcon_UnmarshalYAML (i : CustomIcon) (node : yaml_Node)
    : CustomIcon * option error :=
  match Decode node with
  | inr err => (i, Some err)
  | inl value =>
      let '(prefix, icon, found) := Cut value ":" in
      if negb found then ({| URL := value; IsFlatIcon := IsFlatIcon i |}, None)
      else if String.eqb prefix "si" then
        ({| URL := simple_icons_url +:+ icon +:+ ".svg"; IsFlatIcon := true |}, None)
      else if String.eqb prefix "di" then
        let '(basename, ext, found) := Cut icon "." in
        let '(basename, ext) := if negb found then (icon, "svg") else (basename, ext) in
        let ext :=
          if negb (String.eqb ext "svg") && negb (String.eqb ext "png")
          then "svg" else ext in
        ({| URL := dashboard_icons_url +:+ ext +:+ "/" +:+ basename +:+ "." +:+ ext;
            IsFlatIcon := IsFlatIcon i |}, None)
      else ({| URL := value; IsFlatIcon := IsFlatIcon i |}, None)
  end.

(** *** Cutting at a byte *)

Lemma HasPrefix_inv (s prefix : string) :
  HasPrefix s prefix = true -> exists rest, s = prefix +:+ rest.
Proof.
  revert s. induction prefix as [|p prefix IH]; intros s H; [now exists s|].
  destruct s as [|c s]; [discriminate|]. cbn in H.
  apply andb_true_iff in H as [Hc H]. apply Ascii.eqb_eq in Hc as ->.
  destruct (IH s H) as [rest ->]. now exists rest.
Qed.

Lemma HasPrefix_app (prefix rest : string) : HasPrefix (prefix +:+ rest) prefix = true.
Proof.
  induction prefix as [|p prefix IH]; [now destruct rest|].
  change (String p prefix +:+ rest) with (String p (prefix +:+ rest)).
  cbn [HasPrefix]. now rewrite Ascii.eqb_refl, IH.
Qed.

Lemma HasPrefix_byte (c c' : ascii) (s : string) :
  HasPrefix (String c' s) (String c "") = Ascii.eqb c c'.
Proof. cbn [HasPrefix]. destruct s; apply andb_true_r. Qed.

Lemma Index_cons (c c' : ascii) (s : string) :
  Index (String c' s) (String c "") =
    if Ascii.eqb c c' then Some 0%nat else S <$> Index s (String c "").
Proof.
  change (Index (String c' s) (String c ""))
    with (if HasPrefix (String c' s) (String c "") then Some 0%nat
          else S <$> Index s (String c "")).
  now rewrite HasPrefix_byte.
Qed.

Lemma Index_byte_absent (c : ascii) (s : string) :
  has_byte c s = false -> Index s (String c "") = None.
Proof.
  induction s as [|c' s IH]; [reflexivity|]. cbn [has_byte].
  intros H. apply orb_false_iff in H as [Hc H].
  now rewrite Index_cons, Hc, IH.
Qed.

Lemma Index_byte_first (c : ascii) (before after : string) :
  has_byte c before = false ->
  Index (before +:+ String c after) (String c "") = Some (String.length before).
Proof.
  induction before as [|c' before IH]; cbn [has_byte String.length].
  - intros _. change ("" +:+ String c after) with (String c after).
    now rewrite Index_cons, Ascii.eqb_refl.
  - intros H. apply orb_false_iff in H as [Hc H].
    change (String c' before +:+ String c after)
      with (String c' (before +:+ String c after)).
    now rewrite Index_cons, Hc, IH.
Qed.

Lemma append_cons (c : ascii) (s t : string) :
  String c s +:+ t = String c (s +:+ t).
Proof. reflexivity. Qed.

Lemma append_snoc_assoc (s : string) (c : ascii) (t : string) :
  (s +:+ String c "") +:+ t = s +:+ String c t.
Proof. induction s as [|c' s IH]; [reflexivity|]. now rewrite !append_cons, IH. Qed.

Lemma length_append_byte (s : string) (c : ascii) :
  String.length (s +:+ String c "") = (String.length s + 1)%nat.
Proof.
  induction s as [|c' s IH]; [reflexivity|].
  rewrite append_cons. cbn [String.length]. now rewrite IH.
Qed.

Lemma str_take_app (before rest : string) :
  str_take (String.length before) (before +:+ rest) = before.
Proof.
  induction before as [|c before IH]; [now destruct rest|].
  rewrite append_cons. cbn [String.length str_take]. now rewrite IH.
Qed.

Lemma str_drop_app (before rest : string) :
  str_drop (String.length before) (before +:+ rest) = rest.
Proof.
  induction before as [|c before IH]; [reflexivity|].
  rewrite append_cons. cbn [String.length str_drop]. exact IH.
Qed.

Lemma Cut_byte_absent (c : ascii) (s : string) :
  has_byte c s = false -> Cut s (String c "") = (s, "", false).
Proof. intros H. unfold Cut. now rewrite Index_byte_absent. Qed.

Lemma Cut_byte_first (c : ascii) (before after : string) :
  has_byte c before = false ->
  Cut (before +:+ String c after) (String c "") = (before, after, true).
Proof.
  intros H. unfold Cut. rewrite Index_byte_first by exact H.
  rewrite str_take_app. cbn [String.length].
  rewrite <- (length_append_byte before c), <- (append_snoc_assoc before c after).
  now rewrite str_drop_app.
Qed.

(** A string either lacks the byte or splits at its first instance. *)
Lemma first_byte (c : ascii) (s : string) :
  has_byte c s = false \/
  exists before after, s = before +:+ String c after /\ has_byte c before = false.
Proof.
  induction s as [|c' s IH]; [now left|]. cbn [has_byte].
  destruct (Ascii.eqb_spec c c') as [<-|Hne].
  - right. now exists "", s.
  - destruct IH as [H|(before & after & -> & H)]; [now left|].
    right. exists (String c' before), after. split; [reflexivity|].
    cbn [has_byte]. rewrite H. now destruct (Ascii.eqb_spec c c').
Qed.

(** X5.  A value "si:<icon>" names a Simple Icons file: the URL is the CDN
    prefix, the text after the first colon and ".svg", and the icon is marked
    flat. *)
Theorem CustomIcon_simple_icon (i : CustomIcon) (node : yaml_Node) (icon : string) :
  Decode node = inl ("si:" +:+ icon) ->
  CustomIcon_UnmarshalYAML i node =
    ({| URL := simple_icons_url +:+ icon +:+ ".svg"; IsFlatIcon := true |}, None).
Proof.
  intros HD. unfold CustomIcon_UnmarshalYAML. rewrite HD.
  change ("si:" +:+ icon) with ("si" +:+ String ":" icon).
  now rewrite (Cut_byte_first ":" "si" icon eq_refl).
Qed.

(** X6.  A value "di:<icon>" names a Dashboard Icons file.  Without a dot in
    the icon name the URL is .../svg/<icon>.svg; with a dot, the name is cut
    at its first dot and the URL is .../<ext>/<basename>.<ext>, where ext is
    png when the text after that dot is exactly "png" and svg in every other
    case.  The flat flag is left as it was. *)
Theorem CustomIcon_dashboard_icon (i : CustomIcon) (node : yaml_Node) (icon : string) :
  Decode node = inl ("di:" +:+ icon) ->
  (has_byte "." icon = false ->
   CustomIcon_UnmarshalYAML i node =
     ({| URL := dashboard_icons_url +:+ "svg" +:+ "/" +:+ icon +:+ "." +:+ "svg";
         IsFlatIcon := IsFlatIcon i |}, None)) /\
  (forall basename rest : string,
     icon = basename +:+ String "." rest -> has_byte "." basename = false ->
     CustomIcon_UnmarshalYAML i node =
       ({| URL := dashboard_icons_url
                    +:+ (if String.eqb rest "png" then "png" else "svg") +:+ "/"
                    +:+ basename +:+ "."
                    +:+ (if String.eqb rest "png" then "png" else "svg");
           IsFlatIcon := IsFlatIcon i |}, None)).
Proof.
  intros HD. unfold CustomIcon_UnmarshalYAML. rewrite HD.
  change ("di:" +:+ icon) with ("di" +:+ String ":" icon).
  rewrite (Cut_byte_first ":" "di" icon eq_refl). cbn [negb String.eqb Ascii.eqb Bool.eqb].
  split.
  - intros Hdot. now rewrite (Cut_byte_absent "." icon Hdot).
  - intros basename rest -> Hdot. rewrite (Cut_byte_first "." basename rest Hdot).
    cbn [negb]. destruct (String.eqb_spec rest "png") as [->|Hpng]; [reflexivity|].
    destruct (String.eqb_spec rest "svg") as [->|Hsvg]; reflexivity.
Qed.

(** The prefix before the first colon is "si" exactly when the value starts
    with "si:", and likewise for any prefix without a colon. *)
Lemma Cut_colon_prefix (value prefix : string) :
  has_byte ":" prefix = false ->
  (exists icon, Cut value ":" = (prefix, icon, true)) <->
  HasPrefix value (prefix +:+ ":") = true.
Proof.
  intros Hp. split.
  - intros [icon HC].
    destruct (first_byte ":" value) as [H|(before & after & -> & H)].
    + rewrite (Cut_byte_absent _ _ H) in HC. discriminate.
    + rewrite (Cut_byte_first _ _ _ H) in HC. injection HC as -> ->.
      rewrite <- append_snoc_assoc. apply HasPrefix_app.
  - intros H. apply HasPrefix_inv in H as [icon ->]. exists icon.
    rewrite append_snoc_assoc. now apply Cut_byte_first.
Qed.

(** X7.  A value that starts with neither "si:" nor "di:" (a plain URL, a
    path, a value with another scheme) is stored verbatim as the URL, without
    error and without touching the flat flag. *)
Theorem CustomIcon_verbatim (i : CustomIcon) (node : yaml_Node) (value : string) :
  Decode node = inl value ->
  HasPrefix value "si:" = false ->
  HasPrefix value "di:" = false ->
  CustomIcon_UnmarshalYAML i node =
    ({| URL := value; IsFlatIcon := IsFlatIcon i |}, None).
Proof.
  intros HD Hsi Hdi. unfold CustomIcon_UnmarshalYAML. rewrite HD.
  destruct (Cut value ":") as [[prefix icon] found] eqn:HC.
  destruct found; [|reflexivity]. cbn [negb].
  destruct (String.eqb_spec prefix "si") as [->|_].
  { pose proof (proj1 (Cut_colon_prefix value "si" eq_refl)
                  (ex_intro _ icon HC)) as H.
    change ("si" +:+ ":") with "si:" in H. congruence. }
  destruct (String.eqb_spec prefix "di") as [->|_]; [|reflexivity].
  pose proof (proj1 (Cut_colon_prefix value "di" eq_refl)
                (ex_intro _ icon HC)) as H.
  change ("di" +:+ ":") with "di:" in H. congruence.
Qed.

(** X8.  Decoding never clears the flat flag and never fails once the node
    has decoded to a string: afterwards the icon is flat exactly when it was
    flat before or the value starts with "si:".  A node that does not decode
    leaves the icon as it was. *)
Theorem CustomIcon_flat_flag (i : CustomIcon) (node : yaml_Node) :
  match Decode node with
  | inl value =>
      (CustomIcon_UnmarshalYAML i node).2 = None /\
      IsFlatIcon (CustomIcon_UnmarshalYAML i node).1
      = IsFlatIcon i || HasPrefix value "si:"
  | inr err => CustomIcon_UnmarshalYAML i node = (i, Some err)
  end.
Proof.
  unfold CustomIcon_UnmarshalYAML. destruct (Decode node) as [value|err]; [|reflexivity].
  destruct (HasPrefix value "si:") eqn:Hsi.
  - destruct (proj2 (Cut_colon_prefix value "si" eq_refl) Hsi) as [icon ->].
    cbn [negb String.eqb Ascii.eqb Bool.eqb fst snd IsFlatIcon].
    now rewrite orb_true_r.
  - rewrite orb_false_r. destruct (Cut value ":") as [[prefix icon] found] eqn:HC.
    destruct found; [|now split]. cbn [negb].
    destruct (String.eqb_spec prefix "si") as [->|_].
    { pose proof (proj1 (Cut_colon_prefix value "si" eq_refl)
                    (ex_intro _ icon HC)) as H.
      change ("si" +:+ ":") with "si:" in H. congruence. }
    destruct (String.eqb prefix "di"); [|now split].
    destruct (Cut icon ".") as [[basename ext] found'].
    destruct (negb found'); now split.
Qed.

End Icons.

(** The icon field on scalar nodes. *)
Lemma simple_icon_example :
  CustomIcon_UnmarshalYAML (string + error) decode_scalar
    {| URL := ""; IsFlatIcon := false |} (inl "si:github")
  = ({| URL := "https://cdn.jsdelivr.net/npm/simple-icons@latest/icons/github.svg";
        IsFlatIcon := true |}, None).
Proof.
  exact (CustomIcon_simple_icon (string + error) decode_scalar
           {| URL := ""; IsFlatIcon := false |} (inl "si:github") "github" eq_refl).
Defined.

Lemma dashboard_icon_example :
  CustomIcon_UnmarshalYAML (string + error) decode_scalar
    {| URL := ""; IsFlatIcon := false |} (inl "di:plex.png")
  = ({| URL := "https://cdn.jsdelivr.net/gh/walkxcode/dashboard-icons@master/png/plex.png";
        IsFlatIcon := false |}, None).
Proof.
  exact (proj2 (CustomIcon_dashboard_icon (string + error) decode_scalar
                  {| URL := ""; IsFlatIcon := false |} (inl "di:plex.png")
                  "plex.png" eq_refl)
           "plex" "png" eq_refl eq_refl).
Defined.

Lemma verbatim_icon_example :
  CustomIcon_UnmarshalYAML (string + error) decode_scalar
    {| URL := ""; IsFlatIcon := true |} (inl "https://example.com/icon.png")
  = ({| URL := "https://example.com/icon.png"; IsFlatIcon := true |}, None).
Proof.
  exact (CustomIcon_verbatim (string + error) decode_scalar
           {| URL := ""; IsFlatIcon := true |} (inl "https://example.com/icon.png")
           "https://example.com/icon.png" eq_refl eq_refl eq_refl).
Defined.

(** *** Reddit.Update (lines 42-55) and its composition with Initialize *)

Arguments base {widgetBase ForumPosts} r.
Arguments Posts {widgetBase ForumPosts} r.
Arguments Subreddit {widgetBase ForumPosts} r.
Arguments Style {widgetBase ForumPosts} r.
Arguments ShowThumbnails {widgetBase ForumPosts} r.
Arguments CommentsUrlTemplate {widgetBase ForumPosts} r.
Arguments Limit {widgetBase ForumPosts} r.
Arguments CollapseAfter {widgetBase ForumPosts} r.

Section RedditUpdate.

Variable widgetBase : Type.
Variable withTitle : string -> widgetBase -> widgetBase.
Variable withCacheDuration : Z -> widgetBase -> widgetBase.

(** [feed.ForumPost]; [feed.ForumPosts] is a slice of them. *)
Variable ForumPost : Type.

(** [feed.FetchSubredditPosts(subreddit, commentsUrlTemplate)]: the network
    request and its decoding. *)
Variable FetchSubredditPosts : string -> string -> list ForumPost * option error.

(** [widgetBase.canContinueUpdateAfterHandlingErr(err)]: records the error in
    the base and tells whether the update goes on. *)
Variable canContinueUpdateAfterHandlingErr :
  option error -> widgetBase -> bool * widgetBase.

(** [ForumPosts.SortByEngagement()] sorts the slice it is called on in place:
    the elements are rearranged, the length of the caller's slice cannot
    change. *)
Variable SortByEngagement : list ForumPost -> list ForumPost.
Hypothesis SortByEngagement_length :
  forall posts, length (SortByEngagement posts) = length posts.

Definition with_base_posts (widget : Reddit widgetBase (list ForumPost))
    (base' : widgetBase) (posts : list ForumPost)
    : Reddit widgetBase (list ForumPost) :=
  {| base := base';
     Posts := posts;
     Subreddit := Subreddit widget;
     Style := Style widget;
     ShowThumbnails := ShowThumbnails widget;
     CommentsUrlTemplate := CommentsUrlTemplate widget;
     Limit := Limit widget;
     CollapseAfter := CollapseAfter widget |}.

(** Lines 42-55.  [posts[:widget.Limit]] is evaluated when
    [len(posts) > widget.Limit]; it panics for a negative [Limit]. *)
Definition Update (widget : Reddit widgetBase (list ForumPost))
    : outcome (Reddit widgetBase (list ForumPost)) :=
  let '(posts, err) :=
    FetchSubredditPosts (Subreddit widget) (CommentsUrlTemplate widget) in
  let '(continue, base') :=
    canContinueUpdateAfterHandlingErr err (base widget) in
  if negb continue then Returns (with_base_posts widget base' (Posts widget))
  else
    posts ← (if Limit widget <? Z.of_nat (length posts)
             then if Limit widget <? 0 then Panics "slice bounds out of range"
                  else Returns (take (Z.to_nat (Limit widget)) posts)
             else Returns posts);
    Returns (with_base_posts widget base' (SortByEngagement posts)).

(** X9.  After a successful Initialize, Update does not panic.  When the
    update can continue, the widget then holds the first Limit fetched posts,
    sorted, so never more than Limit of them; when it cannot, the posts are
    left as they were.  Limit, CollapseAfter and the other settings are not
    touched by Update. *)
Theorem Update_after_Initialize (widget : Reddit widgetBase (list ForumPost)) :
  (Initialize widgetBase withTitle withCacheDuration (list ForumPost) widget).2 = None ->
  exists widget' : Reddit widgetBase (list ForumPost),
    Update (Initialize widgetBase withTitle withCacheDuration (list ForumPost) widget).1
      = Returns widget' /\
    (if (canContinueUpdateAfterHandlingErr
           (FetchSubredditPosts (Subreddit widget) (CommentsUrlTemplate widget)).2
           (base (Initialize widgetBase withTitle withCacheDuration
                    (list ForumPost) widget).1)).1
     then
       Posts widget' =
         SortByEngagement
           (take (Z.to_nat (Limit widget'))
              (FetchSubredditPosts (Subreddit widget)
                 (CommentsUrlTemplate widget)).1) /\
       Z.of_nat (length (Posts widget')) <= Limit widget'
     else Posts widget' = Posts widget) /\
    Limit widget' =
      Limit (Initialize widgetBase withTitle withCacheDuration
               (list ForumPost) widget).1 /\
    CollapseAfter widget' =
      CollapseAfter (Initialize widgetBase withTitle withCacheDuration
                       (list ForumPost) widget).1 /\
    1 <= Limit widget' /\
    Subreddit widget' = Subreddit widget.
Proof.
  unfold Initialize.
  destruct (String.eqb (Subreddit widget) ""); [discriminate|]. intros _.
  cbn [fst snd]. unfold Update.
  cbn [Subreddit CommentsUrlTemplate base Limit Posts].
  destruct (FetchSubredditPosts (Subreddit widget) (CommentsUrlTemplate widget))
    as [posts err].
  cbn [fst snd].
  destruct (canContinueUpdateAfterHandlingErr err _) as [[|] base'].
  - cbn [negb fst snd].
    set (limit := if Limit widget <=? 0 then 15 else Limit widget).
    assert (Hlimit : 1 <= limit)
      by (unfold limit; destruct (Z.leb_spec (Limit widget) 0); lia).
    replace (limit <? 0) with false by (symmetry; apply Z.ltb_ge; lia).
    destruct (Z.ltb_spec limit (Z.of_nat (length posts))) as [Hlt|Hge];
      cbn [mbind outcome_bind bind]; eexists; (split; [reflexivity|]);
      cbn [with_base_posts Posts Limit CollapseAfter Subreddit];
      repeat split; try assumption.
    + rewrite SortByEngagement_length, length_take. lia.
    + rewrite take_ge by lia. reflexivity.
    + rewrite SortByEngagement_length. lia.
  - cbn [negb fst snd]. eexists. split; [reflexivity|].
    cbn [with_base_posts Posts Limit CollapseAfter Subreddit].
    repeat split. destruct (Z.leb_spec (Limit widget) 0); lia.
Qed.

(** X10.  On a widget whose Limit is negative, which Initialize would have
    replaced, Update panics whenever the update can continue: the fetched
    posts are then always longer than Limit and are sliced at it. *)
Theorem Update_negative_Limit (widget : Reddit widgetBase (list ForumPost)) :
  Limit widget < 0 ->
  (canContinueUpdateAfterHandlingErr
     (FetchSubredditPosts (Subreddit widget) (CommentsUrlTemplate widget)).2
     (base widget)).1 = true ->
  Update widget = Panics "slice bounds out of range".
Proof.
  intros Hneg Hcont. unfold Update.
  destruct (FetchSubredditPosts (Subreddit widget) (CommentsUrlTemplate widget))
    as [posts err].
  cbn [snd] in Hcont.
  destruct (canContinueUpdateAfterHandlingErr err (base widget)) as [continue base'].
  cbn [fst] in Hcont. subst continue. cbn [negb].
  replace (Limit widget <? Z.of_nat (length posts)) with true
    by (symmetry; apply Z.ltb_lt; lia).
  replace (Limit widget <? 0) with true by (symmetry; apply Z.ltb_lt; lia).
  reflexivity.
Qed.

(** X11.  Initialize is idempotent on the settings: applied to the widget a
    successful Initialize returned, it succeeds again and leaves Limit,
    CollapseAfter, Subreddit, Style, ShowThumbnails, CommentsUrlTemplate and
    Posts as they are. *)
Theorem Initialize_idempotent (widget : Reddit widgetBase (list ForumPost)) :
  (Initialize widgetBase withTitle withCacheDuration (list ForumPost) widget).2 = None ->
  let once :=
    (Initialize widgetBase withTitle withCacheDuration (list ForumPost) widget).1 in
  let twice :=
    Initialize widgetBase withTitle withCacheDuration (list ForumPost) once in
  twice.2 = None /\
  Limit twice.1 = Limit once /\
  CollapseAfter twice.1 = CollapseAfter once /\
  Subreddit twice.1 = Subreddit once /\
  Style twice.1 = Style once /\
  ShowThumbnails twice.1 = ShowThumbnails once /\
  CommentsUrlTemplate twice.1 = CommentsUrlTemplate once /\
  Posts twice.1 = Posts once.
Proof.
  unfold Initialize.
  destruct (String.eqb (Subreddit widget) "") eqn:Hsub; [discriminate|]. intros _.
  cbn [fst snd Subreddit Limit CollapseAfter]. rewrite Hsub.
  cbn [fst snd Subreddit Style ShowThumbnails CommentsUrlTemplate Limit
       CollapseAfter Posts].
  split; [reflexivity|]. split; [|split; [|repeat split]].
  - destruct (Z.leb_spec (Limit widget) 0) as [H|H]; [reflexivity|].
    destruct (Z.leb_spec (Limit widget) 0); [lia|reflexivity].
  - destruct (Z.eqb_spec (CollapseAfter widget) 0) as [H0|H0],
      (Z.ltb_spec (CollapseAfter widget) (-1)) as [H1|H1]; cbn [orb]; try reflexivity.
    destruct (Z.eqb_spec (CollapseAfter widget) 0); [lia|].
    destruct (Z.ltb_spec (CollapseAfter widget) (-1)); [lia|]. reflexivity.
Qed.

End RedditUpdate.

(** A scripted Reddit widget: the base is its title, posts are numbers, the
    fetch returns three of them, the update goes on when there is no error,
    and sorting reverses. *)
Definition scripted_withTitle (title base : string) : string :=
  if String.eqb base "" then title else base.

Definition scripted_continue (err : option error) (base : string) : bool * string :=
  (match err with None => true | Some _ => false end, base).

Definition scripted_reddit (limit : Z) : Reddit string (list nat) :=
  {| base := ""; Posts := []; Subreddit := "golang"; Style := "";
     ShowThumbnails := false; CommentsUrlTemplate := ""; Limit := limit;
     CollapseAfter := 0 |}.

Definition scripted_Initialize (widget : Reddit string (list nat))
    : Reddit string (list nat) * option error :=
  Initialize string scripted_withTitle (fun _ base => base) (list nat) widget.

Definition scripted_Update (widget : Reddit string (list nat))
    : outcome (Reddit string (list nat)) :=
  Update string nat (fun _ _ => ([5; 3; 9]%nat, None)) scripted_continue
    (@reverse nat) widget.

(** Initialize changes one more field than Limit and CollapseAfter: the
    embedded base, which line 37 passes through withTitle and
    withCacheDuration.  On the scripted widget, whose base is its title and
    starts empty, a successful Initialize leaves the title "/r/golang", so
    the widget is not the old one with only the two limits replaced. *)
Lemma Initialize_changes_base :
  (scripted_Initialize (scripted_reddit 2)).2 = None /\
  base (scripted_reddit 2) = "" /\
  base (scripted_Initialize (scripted_reddit 2)).1 = "/r/golang" /\
  (scripted_Initialize (scripted_reddit 2)).1
  <> {| base := base (scripted_reddit 2);
        Posts := Posts (scripted_reddit 2);
        Subreddit := Subreddit (scripted_reddit 2);
        Style := Style (scripted_reddit 2);
        ShowThumbnails := ShowThumbnails (scripted_reddit 2);
        CommentsUrlTemplate := CommentsUrlTemplate (scripted_reddit 2);
        Limit := Limit (scripted_Initialize (scripted_reddit 2)).1;
        CollapseAfter := CollapseAfter (scripted_Initialize (scripted_reddit 2)).1 |}.
Proof.
  split; [reflexivity|]. split; [reflexivity|]. split; [reflexivity|].
  intros H. apply (f_equal base) in H. vm_compute in H. discriminate H.
Qed.

Lemma Update_after_Initialize_example :
  exists widget' : Reddit string (list nat),
    scripted_Update (scripted_Initialize (scripted_reddit 2)).1 = Returns widget' /\
    (Posts widget'
     = reverse (take (Z.to_nat (Limit widget')) [5; 3; 9]%nat) /\
     Z.of_nat (length (Posts widget')) <= Limit widget') /\
    Limit widget' = 2 /\
    CollapseAfter widget' = 5 /\
    1 <= Limit widget' /\
    Subreddit widget' = "golang".
Proof.
  exact (Update_after_Initialize string scripted_withTitle (fun _ base => base) nat
           (fun _ _ => ([5; 3; 9]%nat, None)) scripted_continue (@reverse nat)
           (@length_reverse nat) (scripted_reddit 2) eq_refl).
Defined.

Lemma Update_negative_Limit_example :
  scripted_Update (scripted_reddit (-1)) = Panics "slice bounds out of range".
Proof.
  refine (Update_negative_Limit string nat (fun _ _ => ([5; 3; 9]%nat, None))
            scripted_continue (@reverse nat) (scripted_reddit (-1)) _ eq_refl).
  reflexivity.
Defined.

Lemma Initialize_idempotent_example :
  (scripted_Initialize (scripted_Initialize (scripted_reddit 0)).1).2 = None /\
  Limit (scripted_Initialize (scripted_Initialize (scripted_reddit 0)).1).1 = 15 /\
  CollapseAfter (scripted_Initialize (scripted_Initialize (scripted_reddit 0)).1).1 = 5 /\
  Subreddit (scripted_Initialize (scripted_Initialize (scripted_reddit 0)).1).1
    = "golang" /\
  Style (scripted_Initialize (scripted_Initialize (scripted_reddit 0)).1).1 = "" /\
  ShowThumbnails (scripted_Initialize (scripted_Initialize (scripted_reddit 0)).1).1
    = false /\
  CommentsUrlTemplate
    (scripted_Initialize (scripted_Initialize (scripted_reddit 0)).1).1 = "" /\
  Posts (scripted_Initialize (scripted_Initialize (scripted_reddit 0)).1).1 = [].
Proof.
  exact (Initialize_idempotent string scripted_withTitle (fun _ base => base) nat
           (scripted_reddit 0) eq_refl).
Defined.

(** *** HSLColorField.String (lines 30-36) and the way back *)

(** The decimal digit of a value below ten. *)
Definition digit_char (d : Z) : ascii := ascii_of_N (48 + Z.to_N d).

(** The [%d] of an unsigned integer: its decimal digits, most significant
    first.  Twenty digits are enough for 64 bits. *)
Fixpoint format_digits (fuel : nat) (n : Z) (acc : string) : string :=
  match fuel with
  | O => acc
  | S fuel' =>
      let acc' := String (digit_char (n mod 10)) acc in
      if n <? 10 then acc' else format_digits fuel' (n / 10) acc'
  end.

Definition FormatUint (n : Z) : string := format_digits 20 n "".

(** [fmt.Sprintf("hsl(%d, %d%%, %d%%)", c.Hue, c.Saturation, c.Lightness)]. *)
Definition HSLColorField_String (c : HSLColorField) : string :=
  "hsl(" +:+ FormatUint (Hue c) +:+ ", " +:+ FormatUint (Saturation c) +:+ "%, "
    +:+ FormatUint (Lightness c) +:+ "%)".

(** [template.CSS(c.String())]: a conversion of string types. *)
Definition HSLColorField_AsCSSValue (c : HSLColorField) : string :=
  HSLColorField_String c.

(** **** Texts that a pattern cannot tell apart *)

Fixpoint classes (r : regex) : list (ascii -> bool) :=
  match r with
  | Empty | Bot | Eot => []
  | Class p => [p]
  | Cat r1 r2 | Alt r1 r2 => classes r1 ++ classes r2
  | Quest r | Star r | Group _ r => classes r
  end.

(** Two bytes that are in the same classes of [r]. *)
Definition alike (r : regex) (c1 c2 : ascii) : Prop :=
  Forall (fun p : ascii -> bool => p c1 = p c2) (classes r).

Lemma bind_pointwise {A B} (f g : A -> list B) (l : list A) :
  (forall x, f x = g x) -> l ≫= f = l ≫= g.
Proof.
  intros H. induction l as [|x l IH]; [reflexivity|].
  cbn [mbind list_bind]. now rewrite H, IH.
Qed.

Lemma star_pointwise (step1 step2 : nat -> gmap nat (nat * nat) -> list thread)
    (fuel pos : nat) (caps : gmap nat (nat * nat)) :
  (forall pos caps, step1 pos caps = step2 pos caps) ->
  star step1 fuel pos caps = star step2 fuel pos caps.
Proof.
  intros H. revert pos caps. induction fuel as [|fuel IH]; intros pos caps;
    [reflexivity|].
  cbn [star]. rewrite H. f_equal. apply bind_pointwise. intros t.
  destruct (Nat.ltb pos t.1); [apply IH|reflexivity].
Qed.

(** The search runs alike on two texts of one length whose bytes are alike,
    position by position. *)
Lemma run_alike (text1 text2 : list ascii) (r : regex) :
  length text1 = length text2 ->
  (forall i c1 c2, text1 !! i = Some c1 -> text2 !! i = Some c2 ->
     Forall (fun p : ascii -> bool => p c1 = p c2) (classes r)) ->
  forall pos caps, run text1 r pos caps = run text2 r pos caps.
Proof.
  intros Hlen. induction r as [| | |p|r1 IH1 r2 IH2|r1 IH1 r2 IH2|r IH|r IH|n r IH];
    intros Hal pos caps; cbn [run classes] in *.
  - reflexivity.
  - reflexivity.
  - now rewrite Hlen.
  - destruct (text1 !! pos) as [c1|] eqn:H1, (text2 !! pos) as [c2|] eqn:H2.
    + specialize (Hal pos c1 c2 H1 H2). apply Forall_cons in Hal as [-> _].
      reflexivity.
    + apply lookup_lt_Some in H1. apply lookup_ge_None in H2. lia.
    + apply lookup_lt_Some in H2. apply lookup_ge_None in H1. lia.
    + reflexivity.
  - rewrite IH1 by (intros i c1 c2 H1 H2;
                    exact (proj1 (proj1 (Forall_app _ _ _) (Hal i c1 c2 H1 H2)))).
    apply bind_pointwise. intros t. apply IH2.
    intros i c1 c2 H1 H2. exact (proj2 (proj1 (Forall_app _ _ _) (Hal i c1 c2 H1 H2))).
  - rewrite IH1 by (intros i c1 c2 H1 H2;
                    exact (proj1 (proj1 (Forall_app _ _ _) (Hal i c1 c2 H1 H2)))).
    f_equal. apply IH2.
    intros i c1 c2 H1 H2. exact (proj2 (proj1 (Forall_app _ _ _) (Hal i c1 c2 H1 H2))).
  - now rewrite IH.
  - rewrite Hlen. apply star_pointwise. intros pos' caps'. now apply IH.
  - now rewrite IH.
Qed.

Lemma leftmost_first_alike (text1 text2 : list ascii) (r : regex) :
  Forall2 (alike r) text1 text2 ->
  leftmost_first text1 r = leftmost_first text2 r.
Proof.
  intros H. unfold leftmost_first.
  rewrite (Forall2_length _ _ _ H). f_equal. apply bind_pointwise. intros start.
  f_equal. apply run_alike; [now apply Forall2_length in H|].
  intros i c1 c2 H1 H2. exact (Forall2_lookup_lr _ _ _ _ _ _ H H1 H2).
Qed.

Lemma alike_refl (r : regex) (c : ascii) : alike r c c.
Proof. unfold alike. now apply Forall_forall. Qed.

(** No pattern class but [\d] holds a digit: the HSL pattern cannot tell two
    digits apart. *)
Lemma digits_alike (c : ascii) :
  is_digit c = true -> alike HSLColorPattern c "0".
Proof.
  intros H. unfold alike. cbn [classes HSLColorPattern Lit list_ascii_of_string
    Repeat_1_3 Plus separators digit Char app].
  repeat first
    [ apply Forall_nil_2
    | apply Forall_cons; split;
      [ first [ now rewrite H
              | match goal with
                | |- Ascii.eqb ?x c = _ =>
                    destruct (Ascii.eqb_spec x c) as [<-|]; [discriminate|reflexivity]
                end ] | ] ].
Qed.

(** The HSL pattern on ["hsl(" h ", " s "%, " l "%)"], where [h], [s] and [l]
    are one to three digits each: the three groups are [h], [s] and [l]. *)
Lemma HSLColorPattern_on_digits (dh ds dl : list ascii) :
  all_digits dh = true -> (1 <= length dh <= 3)%nat ->
  all_digits ds = true -> (1 <= length ds <= 3)%nat ->
  all_digits dl = true -> (1 <= length dl <= 3)%nat ->
  FindStringSubmatch HSLColorPattern
    (string_of_list_ascii
       (list_ascii_of_string "hsl(" ++ dh ++ list_ascii_of_string ", " ++ ds
          ++ list_ascii_of_string "%, " ++ dl ++ list_ascii_of_string "%)"))
  = [string_of_list_ascii
       (list_ascii_of_string "hsl(" ++ dh ++ list_ascii_of_string ", " ++ ds
          ++ list_ascii_of_string "%, " ++ dl ++ list_ascii_of_string "%)");
     string_of_list_ascii dh; string_of_list_ascii ds; string_of_list_ascii dl].
Proof.
  intros Hh Lh Hs Ls Hl Ll. unfold FindStringSubmatch.
  rewrite list_ascii_of_string_of_list_ascii.
  destruct dh as [|h1 [|h2 [|h3 [|h4 dh]]]]; cbn [length] in Lh; try lia;
    destruct ds as [|s1 [|s2 [|s3 [|s4 ds]]]]; cbn [length] in Ls; try lia;
    destruct dl as [|l1 [|l2 [|l3 [|l4 dl]]]]; cbn [length] in Ll; try lia;
    cbn [all_digits forallb] in Hh, Hs, Hl;
    repeat match goal with
           | H : _ && _ = true |- _ => apply andb_true_iff in H as [? H]
           end;
    cbn [app list_ascii_of_string];
    (erewrite leftmost_first_alike;
     [|solve [repeat first
         [ apply List.Forall2_nil
         | apply List.Forall2_cons;
           [ first [ apply digits_alike; assumption | apply alike_refl ] | ] ]]]);
    vm_compute; reflexivity.
Qed.

Lemma list_ascii_of_string_app (a b : string) :
  list_ascii_of_string (a +:+ b) = list_ascii_of_string a ++ list_ascii_of_string b.
Proof.
  induction a as [|c a IH]; [reflexivity|].
  rewrite append_cons. cbn [list_ascii_of_string app]. now rewrite IH.
Qed.

(** The decimal form of a number below a thousand: one to three digits that
    denote it. *)
Lemma FormatUint_small (n : Z) :
  0 <= n <= 999 ->
  all_digits (list_ascii_of_string (FormatUint n)) = true /\
  (1 <= length (list_ascii_of_string (FormatUint n)) <= 3)%nat /\
  number (FormatUint n) = n.
Proof.
  intros Hn.
  assert (Hall :
    forallb (fun n =>
               all_digits (list_ascii_of_string (FormatUint n))
               && Nat.leb 1 (length (list_ascii_of_string (FormatUint n)))
               && Nat.leb (length (list_ascii_of_string (FormatUint n))) 3
               && (number (FormatUint n) =? n))
      (seqZ 0 1000) = true) by (vm_compute; reflexivity).
  rewrite forallb_forall in Hall. specialize (Hall n).
  rewrite !andb_true_iff, !Nat.leb_le, Z.eqb_eq in Hall.
  destruct Hall as [[[? ?] ?] ?]; [|auto].
  apply list_elem_of_In, elem_of_seqZ. lia.
Qed.

Section HSLString.

Variable yaml_Node : Type.
Variable Decode : yaml_Node -> string + error.

(** X12.  What String prints, UnmarshalYAML reads back: for a color with
    Hue <= 360, Saturation <= 100 and Lightness <= 100, decoding a node whose
    text is String() of the color yields that color, whatever the field held
    before. *)
Theorem HSLColorField_String_roundtrip (c previous : HSLColorField)
    (node : yaml_Node) :
  Decode node = inl (HSLColorField_String c) ->
  0 <= Hue c <= HSLHueMax ->
  0 <= Saturation c <= HSLSaturationMax ->
  0 <= Lightness c <= HSLLightnessMax ->
  HSLColorField_UnmarshalYAML yaml_Node Decode previous node = (c, None).
Proof.
  unfold HSLHueMax, HSLSaturationMax, HSLLightnessMax. intros HD Hh Hs Hl.
  destruct (FormatUint_small (Hue c) ltac:(lia)) as (Dh & Lh & Nh).
  destruct (FormatUint_small (Saturation c) ltac:(lia)) as (Ds & Ls & Ns).
  destruct (FormatUint_small (Lightness c) ltac:(lia)) as (Dl & Ll & Nl).
  assert (HM : FindStringSubmatch HSLColorPattern (HSLColorField_String c)
               = [HSLColorField_String c; FormatUint (Hue c);
                  FormatUint (Saturation c); FormatUint (Lightness c)]).
  { pose proof (HSLColorPattern_on_digits _ _ _ Dh Lh Ds Ls Dl Ll) as H.
    rewrite <- !list_ascii_of_string_app in H.
    rewrite !string_of_list_ascii_of_string in H. exact H. }
  unfold HSLColorField_UnmarshalYAML. rewrite HD, HM.
  rewrite !ParseUint_digits by (assumption || lia).
  rewrite Nh, Ns, Nl.
  unfold HSLHueMax, HSLSaturationMax, HSLLightnessMax.
  replace (Hue c <? 2 ^ 16) with true by (symmetry; apply Z.ltb_lt; lia).
  replace (360 <? Hue c) with false by (symmetry; apply Z.ltb_ge; lia).
  replace (Saturation c <? 2 ^ 8) with true by (symmetry; apply Z.ltb_lt; lia).
  replace (100 <? Saturation c) with false by (symmetry; apply Z.ltb_ge; lia).
  replace (Lightness c <? 2 ^ 8) with true by (symmetry; apply Z.ltb_lt; lia).
  replace (100 <? Lightness c) with false by (symmetry; apply Z.ltb_ge; lia).
  rewrite !Z.mod_small by lia. now destruct c.
Qed.

End HSLString.

Lemma HSLColorField_String_roundtrip_example :
  HSLColorField_UnmarshalYAML (string + error) decode_scalar
    {| Hue := 0; Saturation := 0; Lightness := 0 |}
    (inl (HSLColorField_String {| Hue := 240; Saturation := 8; Lightness := 100 |}))
  = ({| Hue := 240; Saturation := 8; Lightness := 100 |}, None).
Proof.
  apply (HSLColorField_String_roundtrip (string + error) decode_scalar);
    [reflexivity|vm_compute; split; discriminate..].
Defined.

(** *** OptionalEnvString (lines 125-178) *)

(** [.] without the s flag: any character but a line feed.  The search reads
    bytes where Go reads runes; for the pattern below the two agree on what
    is replaced, since a [.] that reads the last byte of a rune leaves the
    bytes before it in the unmatched text, and no byte of a multi-byte rune is
    a backslash. *)
Definition any_char : regex := Class (fun c => negb (Ascii.eqb c "010")).

(** [[A-Z_]]. *)
Definition is_key_byte (c : ascii) : bool :=
  ((65 <=? N_of_ascii c)%N && (N_of_ascii c <=? 90)%N) || Ascii.eqb c "_".

(** [(^|.)\$\{([A-Z_]+)\}] *)
Definition EnvFieldPattern : regex :=
  (Group 1 (Alt Bot any_char)
   +++ Char "$" +++ Char "{"
   +++ Group 2 (Plus (Class is_key_byte))
   +++ Char "}")%re.

(** The first thread of the earliest start at or after [from] that has one:
    the search of [re.doExecute] from a position inside the text. *)
Definition leftmost_first_from (text : list ascii) (r : regex) (from : nat)
    : option (nat * thread) :=
  head (start ← seq from (S (length text) - from);
        (fun t => (start, t)) <$> run text r start ∅).

Section ReplaceAll.

Context {S : Type}.
Variable r : regex.
Variable text : list ascii.

(** The callback of [ReplaceAllStringFunc] may assign to variables of its
    closure: it takes their state and returns the new one with the
    replacement. *)
Variable repl : S -> string -> S * string.

(** The loop of [re.replaceAll]: [searchPos] is where the next match is
    looked for, [lastMatchEnd] where the last one ended, [buf] the output so
    far.  A byte has width 1. *)
Fixpoint replace_loop (fuel searchPos lastMatchEnd : nat) (buf : list ascii)
    (st : S) : S * list ascii :=
  match fuel with
  | O => (st, buf ++ drop lastMatchEnd text)
  | Datatypes.S fuel' =>
      if Nat.ltb (length text) searchPos then (st, buf ++ drop lastMatchEnd text)
      else
        match leftmost_first_from text r searchPos with
        | None => (st, buf ++ drop lastMatchEnd text)
        | Some (a0, (a1, _)) =>
            let buf := buf ++ slice text lastMatchEnd a0 in
            let '(st, buf) :=
              if Nat.ltb lastMatchEnd a1 || Nat.eqb a0 0
              then
                let '(st', out) := repl st (string_of_list_ascii (slice text a0 a1)) in
                (st', buf ++ list_ascii_of_string out)
              else (st, buf) in
            let width := if Nat.ltb searchPos (length text) then 1%nat else 0%nat in
            let searchPos :=
              if Nat.ltb a1 (searchPos + width) then (searchPos + width)%nat
              else if Nat.ltb a1 (searchPos + 1) then (searchPos + 1)%nat
              else a1 in
            replace_loop fuel' searchPos a1 buf st
        end
  end.

End ReplaceAll.

(** [re.ReplaceAllStringFunc(src, repl)], with the state of the closure. *)
Definition ReplaceAllStringFunc {S : Type} (r : regex) (src : string)
    (repl : S -> string -> S * string) (st : S) : S * string :=
  let text := list_ascii_of_string src in
  let '(st', out) := replace_loop r text repl (Datatypes.S (length text)) 0 0 [] st in
  (st', string_of_list_ascii out).

Definition OptionalEnvString : Type := string.

(** The closure of lines 136-165; its state is the captured [err]. *)
Definition expand_env (env : gmap string string) (err : option error)
    (whole : string) : option error * string :=
  match err with
  | Some _ => (err, "")
  | None =>
      match FindStringSubmatch EnvFieldPattern whole with
      | [_; prefix; key] =>
          if String.eqb prefix "\" then
            if Nat.leb 2 (String.length whole) then (err, str_drop 1 whole)
            else (err, "")
          else
            match env !! key with
            | None =>
                (Some (fmt_Errorf "environment variable %s not found" (Verb_s key)),
                 "")
            | Some value => (err, prefix +:+ value)
            end
      | _ => (err, whole)
      end
  end.

Section Env.

Variable yaml_Node : Type.
Variable Decode : yaml_Node -> string + error.

(** The process environment, read by [os.LookupEnv]. *)
Variable env : gmap string string.

(** Lines 127-174.  The receiver is passed in and returned. *)
Definition OptionalEnvString_UnmarshalYAML (f : OptionalEnvString)
    (node : yaml_Node) : OptionalEnvString * option error :=
  match Decode node with
  | inr err => (f, Some err)
  | inl value =>
      let '(err, replaced) :=
        ReplaceAllStringFunc EnvFieldPattern value (expand_env env) None in
      match err with
      | Some err => (f, Some err)
      | None => (replaced, None)
      end
  end.

(** Lines 176-178. *)
Definition OptionalEnvString_String (f : OptionalEnvString) : string := f.

End Env.

(** **** Searching from a position *)

Lemma leftmost_first_from_0 (text : list ascii) (r : regex) :
  leftmost_first_from text r 0 = leftmost_first text r.
Proof. reflexivity. Qed.

Lemma leftmost_first_from_sem (text : list ascii) (r : regex)
    (from start stop : nat) (caps : gmap nat (nat * nat)) :
  leftmost_first_from text r from = Some (start, (stop, caps)) ->
  (from <= start)%nat /\ sem text r start ∅ stop caps.
Proof.
  unfold leftmost_first_from. intros H. apply head_Some_elem_of in H.
  apply list_elem_of_bind in H as (start' & Hin & Hstart).
  apply list_elem_of_fmap in Hin as (t & [= ? ?] & Hin). subst.
  apply elem_of_seq in Hstart. split; [lia|]. now apply run_sem in Hin.
Qed.

Lemma leftmost_first_from_None (text : list ascii) (r : regex) (from : nat) :
  (forall start stop caps, (from <= start)%nat -> ~ sem text r start ∅ stop caps) ->
  leftmost_first_from text r from = None.
Proof.
  intros H. destruct (leftmost_first_from text r from) as [[start [stop caps]]|] eqn:E;
    [|reflexivity].
  apply leftmost_first_from_sem in E as [Hle Hsem]. now destruct (H _ _ _ Hle Hsem).
Qed.

Lemma has_byte_lookup (c : ascii) (s : string) (i : nat) :
  has_byte c s = false -> list_ascii_of_string s !! i <> Some c.
Proof.
  revert i. induction s as [|c' s IH]; intros i; [now destruct i|].
  cbn [has_byte]. intros H. apply orb_false_iff in H as [Hc H].
  destruct i as [|i]; cbn [list_ascii_of_string lookup list_lookup].
  - intros [= ->]. now rewrite Ascii.eqb_refl in Hc.
  - now apply IH.
Qed.

(** A match of the pattern holds a dollar sign, right after its first
    group. *)
Lemma EnvFieldPattern_dollar (text : list ascii) (start stop : nat)
    (caps : gmap nat (nat * nat)) :
  sem text EnvFieldPattern start ∅ stop caps ->
  exists p, (start <= p <= start + 1)%nat /\ text !! p = Some "$"%char.
Proof.
  unfold EnvFieldPattern. intros H.
  apply sem_Cat_inv in H as (p1 & c1 & HG & H).
  apply sem_Group_inv in HG as (c0 & HA & ->).
  apply sem_Cat_inv in H as (p2 & c2 & HD & _).
  apply sem_Class_inv in HD as (-> & -> & Hs).
  destruct (Hs p1 ltac:(lia)) as (c & Hc & Heq). apply Ascii.eqb_eq in Heq as <-.
  exists p1. split; [|exact Hc].
  inversion HA as [| | | | |? ? ? ? ? ? HB|? ? ? ? ? ? HB| | | | |]; subst.
  - apply sem_Bot_inv in HB as (-> & -> & _). lia.
  - apply sem_Class_inv in HB as (-> & _ & _). lia.
Qed.

(** What a match of the pattern is made of: the dollar sign at [d], first
    byte of the text or after a byte that is not a line feed, the brace, the
    key up to [b] and the closing brace. *)
Lemma EnvFieldPattern_shape (text : list ascii) (start stop : nat)
    (caps : gmap nat (nat * nat)) :
  sem text EnvFieldPattern start ∅ stop caps ->
  exists d b : nat,
    ((start = 0 /\ d = 0)%nat \/
     (d = S start /\ exists c, text !! start = Some c /\ c <> "010"%char)) /\
    text !! d = Some "$"%char /\ text !! S d = Some "{"%char /\
    (S (S d) < b)%nat /\ span text is_key_byte (S (S d)) b /\
    text !! b = Some "}"%char /\ stop = S b /\
    caps = <[2%nat := (S (S d), b)]> (<[1%nat := (start, d)]> ∅).
Proof.
  unfold EnvFieldPattern. intros H.
  apply sem_Cat_inv in H as (p1 & c1 & HG & H).
  apply sem_Group_inv in HG as (c0 & HA & ->).
  apply sem_Cat_inv in H as (p2 & c2 & HD & H).
  apply sem_Class_inv in HD as (-> & -> & HsD).
  destruct (HsD p1 ltac:(lia)) as (x & Hd & Heq). apply Ascii.eqb_eq in Heq as <-.
  apply sem_Cat_inv in H as (p3 & c3 & HB & H).
  apply sem_Class_inv in HB as (-> & -> & HsB).
  destruct (HsB (S p1) ltac:(lia)) as (x & Hbrace & Heq). apply Ascii.eqb_eq in Heq as <-.
  apply sem_Cat_inv in H as (b & c4 & HK & H).
  apply sem_Group_inv in HK as (c5 & HK & ->).
  apply sem_Plus_Class in HK as (-> & Hb & HsK).
  apply sem_Class_inv in H as (-> & -> & HsE).
  destruct (HsE b ltac:(lia)) as (x & Hend & Heq). apply Ascii.eqb_eq in Heq as <-.
  exists p1, b.
  assert (Halt : ((start = 0 /\ p1 = 0)%nat \/
                  (p1 = S start /\ exists c, text !! start = Some c /\ c <> "010"%char))
                 /\ c0 = ∅).
  { inversion HA as [| | | | |? ? ? ? ? ? HB|? ? ? ? ? ? HB| | | | |]; subst.
    - apply sem_Bot_inv in HB as (-> & -> & ->). auto.
    - apply sem_Class_inv in HB as (-> & -> & Hany).
      destruct (Hany start ltac:(lia)) as (c & Hc & Hn).
      split; [right; split; [reflexivity|]|reflexivity].
      exists c. split; [exact Hc|]. intros ->. discriminate. }
  destruct Halt as [Halt ->].
  split; [exact Halt|]. split; [exact Hd|]. split; [exact Hbrace|].
  split; [exact Hb|]. split; [exact HsK|]. split; [exact Hend|].
  split; reflexivity.
Qed.

Lemma EnvFieldPattern_intro (text : list ascii) (start d b : nat) :
  (start = 0 /\ d = 0)%nat \/
  (d = S start /\ exists c, text !! start = Some c /\ c <> "010"%char) ->
  text !! d = Some "$"%char -> text !! S d = Some "{"%char ->
  (S (S d) < b)%nat -> span text is_key_byte (S (S d)) b ->
  text !! b = Some "}"%char ->
  sem text EnvFieldPattern start ∅ (S b)
    (<[2%nat := (S (S d), b)]> (<[1%nat := (start, d)]> ∅)).
Proof.
  intros Halt Hd Hbrace Hb Hs Hend. unfold EnvFieldPattern.
  eapply (sem_Cat _ _ _ _ _ d).
  { apply sem_Group. destruct Halt as [[-> ->]|(-> & c & Hc & Hn)].
    - apply sem_Alt_l, sem_Bot.
    - apply sem_Alt_r. eapply sem_Class; [exact Hc|].
      destruct (Ascii.eqb_spec c "010"); [congruence|reflexivity]. }
  eapply (sem_Cat _ _ _ _ _ (S d)).
  { eapply sem_Class; [exact Hd|apply Ascii.eqb_refl]. }
  eapply (sem_Cat _ _ _ _ _ (S (S d))).
  { eapply sem_Class; [exact Hbrace|apply Ascii.eqb_refl]. }
  eapply (sem_Cat _ _ _ _ _ b).
  { apply sem_Group. unfold Plus.
    destruct (Hs (S (S d)) ltac:(lia)) as (c & Hc & Hp).
    eapply sem_Cat; [eapply sem_Class; eauto|].
    apply (sem_Star_Class_intro text is_key_byte _ (S (S (S d))) b); [lia|].
    intros i Hi. apply Hs. lia. }
  eapply sem_Class; [exact Hend|apply Ascii.eqb_refl].
Qed.

(** The key of a match ends where the closing brace is. *)
Lemma key_span_end (text key suffix : list ascii) (o b : nat) :
  (forall i, text !! (o + i)%nat = (key ++ "}"%char :: suffix) !! i) ->
  forallb is_key_byte key = true ->
  span text is_key_byte o b -> (o <= b)%nat ->
  text !! b = Some "}"%char ->
  b = (o + length key)%nat.
Proof.
  intros Htext Hkey Hspan Hob Hb.
  rewrite forallb_forall in Hkey.
  destruct (Nat.lt_trichotomy b (o + length key)) as [Hlt|[Heq|Hgt]]; [|exact Heq|].
  - exfalso. replace b with (o + (b - o))%nat in Hb by lia.
    rewrite Htext, lookup_app_l in Hb by lia.
    assert (Hin : In "}"%char key)
      by (apply list_elem_of_In; eapply list_elem_of_lookup_2; eauto).
    apply Hkey in Hin. discriminate.
  - exfalso. destruct (Hspan (o + length key)%nat ltac:(lia)) as (c & Hc & Hp).
    rewrite Htext, lookup_app_r, Nat.sub_diag in Hc by lia.
    injection Hc as <-. discriminate.
Qed.

Lemma bind_all_nil {A B : Type} (f : A -> list B) (l : list A) :
  (forall x, x ∈ l -> f x = []) -> l ≫= f = [].
Proof.
  induction l as [|x l IH]; intros H; [reflexivity|].
  cbn [mbind list_bind]. rewrite (H x) by apply list_elem_of_here.
  apply IH. intros y Hy. apply H. now apply list_elem_of_further.
Qed.

(** The search reports the first thread of the first start that has one. *)
Lemma leftmost_first_first (text : list ascii) (r : regex) (start : nat)
    (t : thread) (l : list thread) :
  (start <= length text)%nat ->
  (forall s, (s < start)%nat -> run text r s ∅ = []) ->
  run text r start ∅ = t :: l ->
  leftmost_first text r = Some (start, t).
Proof.
  intros Hle Hnone Hrun. unfold leftmost_first.
  replace (S (length text)) with (start + S (length text - start))%nat by lia.
  rewrite seq_app, bind_app, bind_all_nil.
  - cbn [seq mbind list_bind app Nat.add]. rewrite Hrun. reflexivity.
  - intros s Hs. apply elem_of_seq in Hs. rewrite Hnone by lia. reflexivity.
Qed.

(** A text with one match, which is followed by no other: the pieces around
    the match are kept and the callback is run on the match. *)
Lemma replace_loop_one {S : Type} (r : regex) (text : list ascii)
    (repl : S -> string -> S * string) (st : S) (a0 a1 : nat)
    (caps : gmap nat (nat * nat)) :
  leftmost_first text r = Some (a0, (a1, caps)) ->
  (0 < a1 <= length text)%nat ->
  leftmost_first_from text r a1 = None ->
  replace_loop r text repl (Datatypes.S (length text)) 0 0 [] st =
    let '(st', out) := repl st (string_of_list_ascii (slice text a0 a1)) in
    (st', take a0 text ++ list_ascii_of_string out ++ drop a1 text).
Proof.
  intros Hfirst Ha1 Hnext.
  destruct (length text) as [|n] eqn:Hlen; [lia|].
  cbn [replace_loop]. rewrite Hlen.
  change (Nat.ltb (Datatypes.S n) 0) with false. cbv iota.
  rewrite leftmost_first_from_0, Hfirst.
  replace (Nat.ltb 0 a1) with true by (symmetry; apply Nat.ltb_lt; lia).
  cbn [orb]. destruct (repl st _) as [st' out].
  change (Nat.ltb 0 (Datatypes.S n)) with true. cbv iota.
  replace (Nat.ltb a1 (0 + 1)) with false by (symmetry; apply Nat.ltb_ge; lia).
  replace (Nat.ltb (Datatypes.S n) a1) with false by (symmetry; apply Nat.ltb_ge; lia).
  rewrite Hnext. unfold slice. rewrite drop_0, Nat.sub_0_r, <- app_assoc.
  reflexivity.
Qed.

(** **** One variable reference

    The text [init ++ mid ++ "${" ++ key ++ "}" ++ suffix], where [mid] is
    the byte before the reference, if there is one, and no dollar sign comes
    before the reference. *)
Definition reference_text (init mid key suffix : list ascii) : list ascii :=
  (init ++ mid) ++ "$"%char :: "{"%char :: key ++ "}"%char :: suffix.

Section Reference.

Local Open Scope nat_scope.

Variables init mid key suffix : list ascii.
Hypothesis Hmid : length mid <= 1.
Hypothesis Hinit : mid = [] -> init = [].
Hypothesis Hplain : forall i, (init ++ mid) !! i <> Some "$"%char.
Hypothesis Hkey : forallb is_key_byte key = true.
Hypothesis Hne : key <> [].

Local Abbreviation text := (reference_text init mid key suffix).
Local Abbreviation d := (length (init ++ mid)).

Lemma reference_dollar : text !! d = Some "$"%char.
Proof. unfold reference_text. rewrite lookup_app_r by lia. now rewrite Nat.sub_diag. Qed.

Lemma reference_brace : text !! S d = Some "{"%char.
Proof.
  unfold reference_text. rewrite lookup_app_r by lia.
  now replace (S d - d) with 1 by lia.
Qed.

Lemma reference_key (i : nat) :
  text !! (S (S d) + i) = (key ++ "}"%char :: suffix) !! i.
Proof.
  unfold reference_text. rewrite lookup_app_r by lia.
  now replace (S (S d) + i - d) with (S (S i)) by lia.
Qed.

Lemma reference_before (i : nat) : i < d -> text !! i = (init ++ mid) !! i.
Proof. intros Hi. unfold reference_text. now rewrite lookup_app_l. Qed.

Lemma reference_length :
  length text = S (S (S d)) + length key + length suffix.
Proof.
  unfold reference_text. rewrite !length_app. cbn [length].
  rewrite !length_app. cbn [length]. lia.
Qed.

Lemma reference_key_span : span text is_key_byte (S (S d)) (S (S d) + length key).
Proof.
  intros i Hi. pose proof Hkey as Hall. rewrite forallb_forall in Hall.
  destruct (lookup_lt_is_Some_2 key (i - S (S d))) as [c Hc]; [lia|].
  exists c. split.
  - replace i with (S (S d) + (i - S (S d))) at 1 by lia.
    rewrite reference_key. now rewrite lookup_app_l by lia.
  - apply Hall, list_elem_of_In. eapply list_elem_of_lookup_2; eauto.
Qed.

(** The captures of the match of the reference. *)
Definition reference_caps : gmap nat (nat * nat) :=
  <[2 := (S (S d), S (S d) + length key)]> (<[1 := (length init, d)]> ∅).

(** A match that starts no later than [mid] is the match of the reference. *)
Lemma reference_match_unique (start stop : nat) (caps : gmap nat (nat * nat)) :
  sem text EnvFieldPattern start ∅ stop caps -> start <= length init ->
  start = length init /\ stop = S (S (S d)) + length key /\ caps = reference_caps.
Proof.
  intros H Hstart.
  apply EnvFieldPattern_shape in H
    as (d' & b & Halt & Hd & Hbrace & Hb & Hs & Hend & -> & ->).
  assert (Hge : d <= d').
  { destruct (Nat.le_gt_cases d d') as [Hle|Hlt]; [exact Hle|].
    rewrite reference_before in Hd by exact Hlt. now apply Hplain in Hd. }
  pose proof reference_brace as Hb'.
  assert (Hd' : d' = d /\ start = length init).
  { rewrite length_app in Hge |- *.
    destruct mid as [|c [|c' m]]; cbn [length] in *; [| |lia].
    - rewrite (Hinit eq_refl) in *. cbn [length] in *.
      destruct Halt as [[-> ->]|(-> & _)]; [lia|].
      assert (start = 0) as -> by lia.
      cbn [length app] in Hb'. congruence.
    - destruct Halt as [[-> ->]|(-> & _)]; lia. }
  destruct Hd' as [-> ->].
  assert (b = S (S d) + length key) as ->.
  { apply (key_span_end text key suffix (S (S d)) b); try assumption; [|lia].
    apply reference_key. }
  split; [reflexivity|]. split; [lia|]. reflexivity.
Qed.

(** The reference is matched, unless the byte before it is a line feed. *)
Lemma reference_match :
  Forall (fun c => c <> "010"%char) mid ->
  sem text EnvFieldPattern (length init) ∅ (S (S (S d)) + length key) reference_caps.
Proof.
  intros Hnl.
  assert (Hklen : 0 < length key) by (destruct key; [congruence|cbn; lia]).
  replace (S (S (S d)) + length key) with (S (S (S d) + length key)) by lia.
  apply EnvFieldPattern_intro.
  - rewrite length_app. destruct mid as [|c [|c' m]]; cbn [length] in *; [| |lia].
    + left. rewrite (Hinit eq_refl). cbn [length]. lia.
    + right. split; [lia|]. exists c. split.
      * unfold reference_text. rewrite <- app_assoc.
        rewrite lookup_app_r by lia. now rewrite Nat.sub_diag.
      * now apply Forall_cons in Hnl as [Hc _].
  - apply reference_dollar.
  - apply reference_brace.
  - lia.
  - apply reference_key_span.
  - rewrite reference_key, lookup_app_r by lia. now rewrite Nat.sub_diag.
Qed.

(** The search finds the reference. *)
Lemma reference_found :
  Forall (fun c => c <> "010"%char) mid ->
  leftmost_first text EnvFieldPattern
  = Some (length init, (S (S (S d)) + length key, reference_caps)).
Proof.
  intros Hnl.
  pose proof (reference_match Hnl) as Hm.
  apply (run_sem text EnvFieldPattern (length init) ∅ (_, _)) in Hm.
  destruct (run text EnvFieldPattern (length init) ∅) as [|[stop caps] l] eqn:Hrun;
    [now apply elem_of_nil in Hm|].
  assert (Ht : (stop, caps) ∈ run text EnvFieldPattern (length init) ∅)
    by (rewrite Hrun; apply list_elem_of_here).
  apply run_sem in Ht. cbn [fst snd] in Ht.
  apply reference_match_unique in Ht as (_ & -> & ->); [|lia].
  apply (leftmost_first_first text EnvFieldPattern (length init) _ l).
  - rewrite reference_length, length_app. lia.
  - intros s Hs.
    destruct (run text EnvFieldPattern s ∅) as [|[stop caps] l'] eqn:Hrun';
      [reflexivity|].
    assert (Ht : (stop, caps) ∈ run text EnvFieldPattern s ∅)
      by (rewrite Hrun'; apply list_elem_of_here).
    apply run_sem in Ht. cbn [fst snd] in Ht.
    apply reference_match_unique in Ht as (-> & _); lia.
  - exact Hrun.
Qed.

(** Nothing is matched after the reference when no dollar sign comes after
    the first byte of what follows it. *)
Lemma reference_last :
  (forall i, suffix !! S i <> Some "$"%char) ->
  leftmost_first_from text EnvFieldPattern (S (S (S d)) + length key) = None.
Proof.
  intros Hsuffix. apply leftmost_first_from_None. intros start stop caps Hfrom H.
  apply EnvFieldPattern_shape in H as (d' & b & Halt & Hd & _).
  assert (d' = S start) as -> by (destruct Halt as [[-> ->]|(-> & _)]; lia).
  replace (S start) with (S (S d) + (length key + S (S (start - (S (S (S d)) + length key)))))
    in Hd by lia.
  rewrite reference_key, lookup_app_r in Hd by lia.
  replace (length key + S (S (start - (S (S (S d)) + length key))) - length key)
    with (S (S (start - (S (S (S d)) + length key)))) in Hd by lia.
  now apply Hsuffix in Hd.
Qed.

Lemma reference_slices :
  take (length init) text = init /\
  slice text (length init) (S (S (S d)) + length key)
  = mid ++ "$"%char :: "{"%char :: key ++ ["}"%char] /\
  drop (S (S (S d)) + length key) text = suffix.
Proof.
  assert (Htext : text = init ++ (mid ++ "$"%char :: "{"%char :: key ++ ["}"%char]) ++ suffix).
  { unfold reference_text. rewrite <- !app_assoc. cbn [app].
    now rewrite <- app_assoc. }
  assert (Hlen : length (mid ++ "$"%char :: "{"%char :: key ++ ["}"%char])
                 = S (S (S d)) + length key - length init).
  { rewrite !length_app. cbn [length]. rewrite length_app. cbn [length]. lia. }
  split; [|split].
  - rewrite Htext. now rewrite take_app_length.
  - unfold slice. rewrite Htext at 1. rewrite drop_app_length, <- Hlen.
    now rewrite take_app_length.
  - rewrite Htext at 1. rewrite app_assoc.
    apply drop_app_length'. rewrite !length_app. cbn [length].
    rewrite !length_app. cbn [length]. lia.
Qed.

(** Replacing in the text: the callback sees [mid] and the reference, the
    rest is kept. *)
Lemma reference_replaced {S : Type} (repl : S -> string -> S * string) (st : S) :
  Forall (fun c => c <> "010"%char) mid ->
  (forall i, suffix !! Datatypes.S i <> Some "$"%char) ->
  replace_loop EnvFieldPattern text repl (Datatypes.S (length text)) 0 0 [] st =
    let '(st', out) :=
      repl st (string_of_list_ascii (mid ++ "$"%char :: "{"%char :: key ++ ["}"%char])) in
    (st', init ++ list_ascii_of_string out ++ suffix).
Proof.
  intros Hnl Hsuffix.
  rewrite (replace_loop_one EnvFieldPattern text repl st _ _ _ (reference_found Hnl)).
  - destruct reference_slices as (-> & -> & ->). reflexivity.
  - rewrite reference_length. lia.
  - now apply reference_last.
Qed.

End Reference.

(** The closure's own search, on the text it is given. *)
Lemma FindStringSubmatch_reference (mid key : list ascii) :
  (length mid <= 1)%nat ->
  (forall i, mid !! i <> Some "$"%char) ->
  Forall (fun c => c <> "010"%char) mid ->
  forallb is_key_byte key = true -> key <> [] ->
  FindStringSubmatch EnvFieldPattern
    (string_of_list_ascii (mid ++ "$"%char :: "{"%char :: key ++ ["}"%char]))
  = [string_of_list_ascii (mid ++ "$"%char :: "{"%char :: key ++ ["}"%char]);
     string_of_list_ascii mid; string_of_list_ascii key].
Proof.
  intros Hmid Hplain Hnl Hkey Hne.
  unfold FindStringSubmatch. rewrite list_ascii_of_string_of_list_ascii.
  change (mid ++ "$"%char :: "{"%char :: key ++ ["}"%char])
    with (reference_text [] mid key []).
  rewrite (reference_found [] mid key [] Hmid (fun _ => eq_refl) Hplain Hkey Hne Hnl).
  change (NumSubexp EnvFieldPattern) with 2%nat.
  cbn [seq fmap list_fmap]. unfold submatch, reference_caps.
  rewrite lookup_insert_ne, !lookup_insert_eq by lia.
  assert (Hmid' : slice (reference_text [] mid key []) 0 (length mid) = mid).
  { unfold slice, reference_text. cbn [app length]. rewrite drop_0, Nat.sub_0_r.
    now rewrite take_app_length. }
  assert (Hkey' : slice (reference_text [] mid key []) (S (S (length mid)))
                    (S (S (length mid)) + length key) = key).
  { unfold slice, reference_text. cbn [app length].
    replace (mid ++ "$"%char :: "{"%char :: key ++ ["}"%char])
      with ((mid ++ ["$"%char; "{"%char]) ++ key ++ ["}"%char])
      by now rewrite <- app_assoc.
    rewrite drop_app_length' by (rewrite length_app; cbn [length]; lia).
    replace (S (S (length mid)) + length key - S (S (length mid)))%nat
      with (length key) by lia.
    now rewrite take_app_length. }
  destruct (reference_slices [] mid key [] Hmid) as (_ & Hwhole & _).
  cbn [length app] in Hwhole |- *. rewrite Hwhole, Hmid', Hkey'. reflexivity.
Qed.

Lemma string_of_list_ascii_app (a b : list ascii) :
  string_of_list_ascii (a ++ b) = string_of_list_ascii a +:+ string_of_list_ascii b.
Proof.
  induction a as [|c a IH]; [reflexivity|].
  cbn [app string_of_list_ascii]. now rewrite IH, append_cons.
Qed.

Lemma has_byte_drop_lookup (c : ascii) (s : string) (i : nat) :
  has_byte c (str_drop 1 s) = false -> list_ascii_of_string s !! S i <> Some c.
Proof.
  destruct s as [|c' s]; [intros _; discriminate|].
  cbn [str_drop list_ascii_of_string lookup list_lookup]. apply has_byte_lookup.
Qed.


Section EnvFacts.

Variable yaml_Node : Type.
Variable Decode : yaml_Node -> string + error.
Variable env : gmap string string.

(** X13.  A value without a dollar sign is stored as it is, without error,
    whatever the environment holds. *)
Theorem OptionalEnvString_no_dollar (f : OptionalEnvString) (node : yaml_Node)
    (value : string) :
  Decode node = inl value ->
  has_byte "$" value = false ->
  OptionalEnvString_UnmarshalYAML yaml_Node Decode env f node = (value, None).
Proof.
  intros HD Hno. unfold OptionalEnvString_UnmarshalYAML, ReplaceAllStringFunc.
  rewrite HD. cbn [replace_loop].
  rewrite leftmost_first_from_None.
  - cbn [Nat.ltb Nat.leb app]. now rewrite drop_0, string_of_list_ascii_of_string.
  - intros start stop caps _ Hsem.
    apply EnvFieldPattern_dollar in Hsem as (p & _ & Hp).
    now apply (has_byte_lookup "$" value p Hno).
Qed.

(** The field on a value with one reference, spelled on bytes. *)
Lemma unmarshal_reference (f : OptionalEnvString) (node : yaml_Node)
    (init mid key suffix : list ascii) :
  Decode node = inl (string_of_list_ascii (reference_text init mid key suffix)) ->
  (length mid <= 1)%nat -> (mid = [] -> init = []) ->
  (forall i, (init ++ mid) !! i <> Some "$"%char) ->
  forallb is_key_byte key = true -> key <> [] ->
  Forall (fun c => c <> "010"%char) mid ->
  (forall i, suffix !! S i <> Some "$"%char) ->
  OptionalEnvString_UnmarshalYAML yaml_Node Decode env f node =
    if String.eqb (string_of_list_ascii mid) "\"
    then (string_of_list_ascii (init ++ "$"%char :: "{"%char :: key ++ "}"%char :: suffix),
          None)
    else
      match env !! string_of_list_ascii key with
      | Some v =>
          (string_of_list_ascii (init ++ mid ++ list_ascii_of_string v ++ suffix), None)
      | None =>
          (f, Some (fmt_Errorf "environment variable %s not found"
                      (Verb_s (string_of_list_ascii key))))
      end.
Proof.
  intros HD Hmid Hinit Hplain Hkey Hne Hnl Hsuffix.
  unfold OptionalEnvString_UnmarshalYAML, ReplaceAllStringFunc.
  rewrite HD, list_ascii_of_string_of_list_ascii.
  rewrite (reference_replaced init mid key suffix Hmid Hinit Hplain Hkey Hne
             (expand_env env) None Hnl Hsuffix).
  unfold expand_env. rewrite FindStringSubmatch_reference; try assumption.
  - destruct (String.eqb (string_of_list_ascii mid) "\") eqn:Hesc.
    + apply String.eqb_eq in Hesc.
      assert (mid = ["\"%char]) as ->.
      { rewrite <- (list_ascii_of_string_of_list_ascii mid), Hesc. reflexivity. }
      cbn [app string_of_list_ascii String.length Nat.leb str_drop
           list_ascii_of_string].
      rewrite list_ascii_of_string_of_list_ascii.
      do 3 f_equal. now rewrite <- app_assoc.
    + destruct (env !! string_of_list_ascii key) as [v|]; [|reflexivity].
      rewrite list_ascii_of_string_app, list_ascii_of_string_of_list_ascii.
      now rewrite <- app_assoc.
  - intros i Hi. apply (Hplain (length init + i)%nat).
    rewrite lookup_app_r by lia. rewrite <- Hi. f_equal. lia.
Qed.

(** X14.  A value that begins with a reference to a variable, with no dollar
    sign after the first byte of what follows the reference: the reference
    is replaced by the variable's value, and a variable that is not set is an
    error that names it and leaves the field as it was.  The rest follows
    unchanged, a second reference right after the first too. *)
Theorem OptionalEnvString_leading_reference (f : OptionalEnvString)
    (node : yaml_Node) (key suffix : string) :
  Decode node = inl ("${" +:+ key +:+ "}" +:+ suffix) ->
  key <> "" ->
  forallb is_key_byte (list_ascii_of_string key) = true ->
  has_byte "$" (str_drop 1 suffix) = false ->
  OptionalEnvString_UnmarshalYAML yaml_Node Decode env f node =
    match env !! key with
    | Some v => (v +:+ suffix, None)
    | None => (f, Some (fmt_Errorf "environment variable %s not found" (Verb_s key)))
    end.
Proof.
  intros HD Hne Hkey Hsuffix.
  rewrite (unmarshal_reference f node [] [] (list_ascii_of_string key)
             (list_ascii_of_string suffix)).
  - cbn [string_of_list_ascii String.eqb app].
    rewrite string_of_list_ascii_of_string.
    destruct (env !! key) as [v|]; [|reflexivity].
    now rewrite string_of_list_ascii_app, !string_of_list_ascii_of_string.
  - rewrite HD. f_equal. unfold reference_text. cbn [app string_of_list_ascii].
    rewrite string_of_list_ascii_app. cbn [string_of_list_ascii].
    now rewrite !string_of_list_ascii_of_string.
  - cbn [length]. lia.
  - reflexivity.
  - intros i. now destruct i.
  - exact Hkey.
  - intros E. apply Hne. rewrite <- (string_of_list_ascii_of_string key), E. reflexivity.
  - constructor.
  - intros i. now apply has_byte_drop_lookup.
Qed.

(** X15.  A reference inside a value, where the text before it holds no
    dollar sign and ends in a byte [c] that is neither a dollar sign, a line
    feed nor a backslash, the key is one or more of A-Z and _, and no dollar
    sign comes after the first byte of what follows the reference: the text
    before and after the reference is kept around the variable's value, and a
    variable that is not set is an error that names it and leaves the field
    as it was. *)
Theorem OptionalEnvString_inner_reference (f : OptionalEnvString)
    (node : yaml_Node) (init : string) (c : ascii) (key suffix : string) :
  Decode node = inl (init +:+ String c ("${" +:+ key +:+ "}" +:+ suffix)) ->
  has_byte "$" init = false ->
  c <> "$"%char -> c <> "010"%char -> c <> "\"%char ->
  key <> "" ->
  forallb is_key_byte (list_ascii_of_string key) = true ->
  has_byte "$" (str_drop 1 suffix) = false ->
  OptionalEnvString_UnmarshalYAML yaml_Node Decode env f node =
    match env !! key with
    | Some v => (init +:+ String c (v +:+ suffix), None)
    | None => (f, Some (fmt_Errorf "environment variable %s not found" (Verb_s key)))
    end.
Proof.
  intros HD Hinit Hc Hnl Hesc Hne Hkey Hsuffix.
  rewrite (unmarshal_reference f node (list_ascii_of_string init) [c]
             (list_ascii_of_string key) (list_ascii_of_string suffix)).
  - cbn [string_of_list_ascii String.eqb].
    destruct (Ascii.eqb_spec c "\"); [congruence|].
    rewrite string_of_list_ascii_of_string.
    destruct (env !! key) as [v|]; [|reflexivity].
    rewrite string_of_list_ascii_app. cbn [app string_of_list_ascii].
    now rewrite string_of_list_ascii_app, !string_of_list_ascii_of_string.
  - rewrite HD. f_equal. unfold reference_text.
    rewrite <- app_assoc, string_of_list_ascii_app. cbn [app string_of_list_ascii].
    rewrite string_of_list_ascii_app. cbn [string_of_list_ascii].
    now rewrite !string_of_list_ascii_of_string.
  - cbn [length]. lia.
  - discriminate.
  - intros i Hi. apply lookup_app_Some in Hi as [Hi|[_ Hi]].
    + now apply (has_byte_lookup "$" init i Hinit).
    + apply list_lookup_singleton_Some in Hi as [_ Hi]. congruence.
  - exact Hkey.
  - intros E. apply Hne. rewrite <- (string_of_list_ascii_of_string key), E. reflexivity.
  - repeat constructor. exact Hnl.
  - intros i. now apply has_byte_drop_lookup.
Qed.

(** X16.  A reference right after a backslash is escaped.  Where the text
    before the backslash holds no dollar sign, the key is one or more of A-Z
    and _, and no dollar sign comes after the first byte of what follows the
    reference: the backslash is dropped, the reference and the rest are kept
    as text, and there is no error, whatever the environment holds. *)
Theorem OptionalEnvString_escaped_reference (f : OptionalEnvString)
    (node : yaml_Node) (init key suffix : string) :
  Decode node = inl (init +:+ "\${" +:+ key +:+ "}" +:+ suffix) ->
  has_byte "$" init = false ->
  key <> "" ->
  forallb is_key_byte (list_ascii_of_string key) = true ->
  has_byte "$" (str_drop 1 suffix) = false ->
  OptionalEnvString_UnmarshalYAML yaml_Node Decode env f node =
    (init +:+ "${" +:+ key +:+ "}" +:+ suffix, None).
Proof.
  intros HD Hinit Hne Hkey Hsuffix.
  rewrite (unmarshal_reference f node (list_ascii_of_string init) ["\"%char]
             (list_ascii_of_string key) (list_ascii_of_string suffix)).
  - cbn [string_of_list_ascii String.eqb Ascii.eqb Bool.eqb andb].
    f_equal. rewrite string_of_list_ascii_app. cbn [string_of_list_ascii].
    rewrite string_of_list_ascii_app. cbn [string_of_list_ascii].
    now rewrite !string_of_list_ascii_of_string.
  - rewrite HD. f_equal. unfold reference_text.
    rewrite <- app_assoc, string_of_list_ascii_app. cbn [app string_of_list_ascii].
    rewrite string_of_list_ascii_app. cbn [string_of_list_ascii].
    now rewrite !string_of_list_ascii_of_string.
  - cbn [length]. lia.
  - discriminate.
  - intros i Hi. apply lookup_app_Some in Hi as [Hi|[_ Hi]].
    + now apply (has_byte_lookup "$" init i Hinit).
    + apply list_lookup_singleton_Some in Hi as [_ Hi]. discriminate.
  - exact Hkey.
  - intros E. apply Hne. rewrite <- (string_of_list_ascii_of_string key), E. reflexivity.
  - repeat constructor. discriminate.
  - intros i. now apply has_byte_drop_lookup.
Qed.

(** X17.  A reference right after a line feed is not a match: a value whose
    dollar signs all come directly after a line feed is stored as it is,
    and the environment is not read. *)
Theorem OptionalEnvString_after_line_feed (f : OptionalEnvString)
    (node : yaml_Node) (value : string) :
  Decode node = inl value ->
  (forall p, list_ascii_of_string value !! p = Some "$"%char ->
     exists q, p = S q /\ list_ascii_of_string value !! q = Some "010"%char) ->
  OptionalEnvString_UnmarshalYAML yaml_Node Decode env f node = (value, None).
Proof.
  intros HD Hfeed. unfold OptionalEnvString_UnmarshalYAML, ReplaceAllStringFunc.
  rewrite HD. cbn [replace_loop].
  rewrite leftmost_first_from_None.
  - cbn [Nat.ltb Nat.leb app]. now rewrite drop_0, string_of_list_ascii_of_string.
  - intros start stop caps _ Hsem.
    apply EnvFieldPattern_shape in Hsem as (d & b & Halt & Hd & _).
    apply Hfeed in Hd as (q & -> & Hq).
    destruct Halt as [[_ [=]]|([= ->] & c & Hc & Hn)]. congruence.
Qed.


End EnvFacts.

(** An environment with one variable. *)
Definition home_env : gmap string string := <["HOME" := "/root"]> ∅.

Lemma no_dollar_example :
  OptionalEnvString_UnmarshalYAML (string + error) decode_scalar home_env
    "old" (inl "plain text") = ("plain text", None).
Proof.
  exact (OptionalEnvString_no_dollar (string + error) decode_scalar home_env
           "old" (inl "plain text") "plain text" eq_refl eq_refl).
Defined.

Lemma leading_reference_example :
  OptionalEnvString_UnmarshalYAML (string + error) decode_scalar home_env
    "old" (inl "${HOME}/data") = ("/root/data", None).
Proof.
  exact (OptionalEnvString_leading_reference (string + error) decode_scalar home_env
           "old" (inl "${HOME}/data") "HOME" "/data" eq_refl
           ltac:(discriminate) eq_refl eq_refl).
Defined.

Lemma inner_reference_example :
  OptionalEnvString_UnmarshalYAML (string + error) decode_scalar home_env
    "old" (inl "file://${HOME}/data") = ("file:///root/data", None).
Proof.
  exact (OptionalEnvString_inner_reference (string + error) decode_scalar home_env
           "old" (inl "file://${HOME}/data") "file:/" "/" "HOME" "/data" eq_refl eq_refl
           ltac:(discriminate) ltac:(discriminate) ltac:(discriminate)
           ltac:(discriminate) eq_refl eq_refl).
Defined.

Lemma escaped_reference_example :
  OptionalEnvString_UnmarshalYAML (string + error) decode_scalar home_env
    "old" (inl "echo \${HOME}") = ("echo ${HOME}", None).
Proof.
  exact (OptionalEnvString_escaped_reference (string + error) decode_scalar home_env
           "old" (inl "echo \${HOME}") "echo " "HOME" "" eq_refl eq_refl
           ltac:(discriminate) eq_refl eq_refl).
Defined.

Lemma after_line_feed_example :
  OptionalEnvString_UnmarshalYAML (string + error) decode_scalar home_env
    "old" (inl (String "010" "${HOME}")) = (String "010" "${HOME}", None).
Proof.
  refine (OptionalEnvString_after_line_feed (string + error) decode_scalar home_env
            "old" (inl (String "010" "${HOME}")) (String "010" "${HOME}") eq_refl _).
  intros p Hp. destruct p as [|[|p]]; [discriminate Hp|now exists 0%nat|].
  do 6 (destruct p as [|p]; [discriminate Hp|]). discriminate Hp.
Defined.


End Widget.
